(** * Item service (sam-to-sls): CRUD handlers over a single DynamoDB table

    Shallow embedding of [src/unnamed/part_000] (the five item handlers and
    their helpers [res] and [randomId]) and of [src/api/handler.js]
    (the connectivity check [hello]).

    - JavaScript values are an inductive type [value]; objects keep their
      properties in enumeration order (array-index keys ascending, then
      the other keys in creation order).
    - A handler is a program [prog response]: it either returns, or awaits
      one call of the DynamoDB document client and continues with the
      promise's outcome.  [try { ... } catch (err) { ... }] is an error
      monad on top of it.
    - The clock ([new Date().toISOString()], [Date.now()]) and [randomId()]
      are read from the environment: their results are arguments of the
      handler, one argument per call in the source.
    - [JSON.parse], [JSON.stringify] and [process.env.TABLE_NAME] belong to
      the runtime and are the fields of the class [Runtime]. *)

From Stdlib Require Import ZArith Uint63 Floats.PrimFloat Ascii DecimalString DecimalNat.
From stdpp Require Import gmap strings list fin_maps.

Open Scope string_scope.
Open Scope list_scope.

(* ===================================================================== *)
(** ** JavaScript values *)
(* ===================================================================== *)

#[warnings="-register-all"]
Inductive value : Type :=
| VUndefined
| VNull
| VBool (b : bool)
| VNum (x : float)
| VStr (s : string)
| VArr (elems : list value)
| VObj (props : list (string * value)).

(** The character U+0022, written without a string escape. *)
Definition dquote : string :=
  String (Ascii.Ascii false true false false false true false false) EmptyString.

(** ToBoolean: [!v] is [negb (to_boolean v)]. *)
Definition to_boolean (v : value) : bool :=
  match v with
  | VUndefined | VNull => false
  | VBool b => b
  | VNum x => negb (PrimFloat.eqb x PrimFloat.zero || PrimFloat.is_nan x)
  | VStr s => negb (String.eqb s "")
  | VArr _ | VObj _ => true
  end.

Definition typeof (v : value) : string :=
  match v with
  | VUndefined => "undefined"
  | VNull => "object"
  | VBool _ => "boolean"
  | VNum _ => "number"
  | VStr _ => "string"
  | VArr _ | VObj _ => "object"
  end.

(** [v ?? d] *)
Definition nullish (v d : value) : value :=
  match v with
  | VUndefined | VNull => d
  | _ => v
  end.

(** ToString of a non-negative integer, as in the template [`#k${i}`]. *)
Definition index_string (i : nat) : string :=
  NilEmpty.string_of_uint (Nat.to_uint i).

(** A property key is an array index when it is the canonical decimal
    form of an integer below 2^32 - 1. *)
Definition array_index (k : string) : option N :=
  match NilEmpty.uint_of_string k with
  | Some d =>
      let n := N.of_uint d in
      if String.eqb (NilEmpty.string_of_uint (N.to_uint n)) k
         && (n <? 4294967295)%N
      then Some n else None
  | None => None
  end.

(* ===================================================================== *)
(** ** Ordinary objects: ordered own properties *)
(* ===================================================================== *)

Definition props := list (string * value).

Fixpoint lookup_prop (k : string) (ps : props) : value :=
  match ps with
  | [] => VUndefined
  | (k', v) :: ps' => if String.eqb k' k then v else lookup_prop k ps'
  end.

Fixpoint has_prop (k : string) (ps : props) : bool :=
  match ps with
  | [] => false
  | (k', _) :: ps' => String.eqb k' k || has_prop k ps'
  end.

(** Overwrite an existing property: the value changes, the position in the
    enumeration order does not. *)
Fixpoint replace_prop (k : string) (v : value) (ps : props) : props :=
  match ps with
  | [] => []
  | (k', v') :: ps' =>
      if String.eqb k' k then (k', v) :: ps'
      else (k', v') :: replace_prop k v ps'
  end.

(** A new array-index key goes after the smaller index keys and before
    everything else. *)
Fixpoint insert_index (n : N) (k : string) (v : value) (ps : props) : props :=
  match ps with
  | [] => [(k, v)]
  | (k', v') :: ps' =>
      match array_index k' with
      | Some m =>
          if (m <? n)%N then (k', v') :: insert_index n k v ps'
          else (k, v) :: ps
      | None => (k, v) :: ps
      end
  end.

(** [o[k] = v] on an ordinary object, and a field of an object literal. *)
Definition set_prop (k : string) (v : value) (ps : props) : props :=
  if has_prop k ps then replace_prop k v ps
  else match array_index k with
       | Some n => insert_index n k v ps
       | None => ps ++ [(k, v)]
       end.

(** Own enumerable properties of the result of [JSON.parse]: the
    properties of an object, the elements of an array under their
    indices.  The handlers enumerate a value only behind the
    [typeof body !== 'object'] guard. *)
Definition own_props (v : value) : props :=
  match v with
  | VObj ps => ps
  | VArr l => imap (fun i x => (index_string i, x)) l
  | _ => []
  end.

(** [Object.keys(v)] *)
Definition Object_keys (v : value) : list string :=
  (own_props v).*1.

(** [v[k]] and [v.k], for the own properties above; a key that is not an
    own property reads as [undefined] (the handlers read [name] and keys
    taken from [Object.keys], none of which is inherited). *)
Definition get (v : value) (k : string) : value :=
  lookup_prop k (own_props v).

(** Object literals: [{ k: v, ...spread, ... }] evaluated left to right. *)
Inductive literal_part : Type :=
| Field (k : string) (v : value)
| Spread (v : value).

(** Assign the properties [l] one after the other. *)
Definition assign_props (ps : props) (l : props) : props :=
  fold_left (fun acc kv => set_prop kv.1 kv.2 acc) l ps.

Definition define_part (ps : props) (p : literal_part) : props :=
  match p with
  | Field k v => set_prop k v ps
  | Spread o => assign_props ps (own_props o)
  end.

Definition object_literal (parts : list literal_part) : value :=
  VObj (fold_left define_part parts []).

(** [l.forEach((x, i) => ...)] threading the state the callback mutates. *)
Fixpoint forEach_from {A St : Type} (f : St -> A -> nat -> St)
    (i : nat) (l : list A) (st : St) : St :=
  match l with
  | [] => st
  | x :: l' => forEach_from f (S i) l' (f st x i)
  end.

Definition forEach {A St : Type} (f : St -> A -> nat -> St) (l : list A) (st : St) : St :=
  forEach_from f 0 l st.

(* ===================================================================== *)
(** ** Errors, promises and the runtime *)
(* ===================================================================== *)

(** An [Error] object: [err.code] (absent on a [SyntaxError], present on
    the SDK's errors) and [err.message]. *)
Record js_error : Type := JsError {
  err_code : option string;
  err_message : string
}.

(** [err.code === c] *)
Definition code_is (e : js_error) (c : string) : bool :=
  match err_code e with
  | Some c' => String.eqb c' c
  | None => false
  end.

Class Runtime : Type := {
  (** [JSON.parse]: the parsed value, or the [SyntaxError] it throws. *)
  JSON_parse : string -> js_error + value;
  (** [JSON.stringify] *)
  JSON_stringify : value -> string;
  (** [process.env.TABLE_NAME], [undefined] when the variable is unset. *)
  TABLE_NAME : value
}.

(* ===================================================================== *)
(** ** The document client's calls *)
(* ===================================================================== *)

Record put_input : Type := PutInput {
  put_TableName : value;
  put_Item : value;
  put_ConditionExpression : option string
}.

Record get_input : Type := GetInput {
  get_TableName : value;
  get_Key : value
}.

Record update_input : Type := UpdateInput {
  upd_TableName : value;
  upd_Key : value;
  upd_UpdateExpression : string;
  upd_ExpressionAttributeNames : value;
  upd_ExpressionAttributeValues : value;
  upd_ConditionExpression : string;
  upd_ReturnValues : string
}.

Record delete_input : Type := DeleteInput {
  del_TableName : value;
  del_Key : value;
  del_ConditionExpression : string
}.

Record scan_input : Type := ScanInput {
  scan_TableName : value;
  scan_Limit : Z
}.

Inductive ddb_call : Type :=
| Put (i : put_input)
| Get (i : get_input)
| Update (i : update_input)
| Delete (i : delete_input)
| Scan (i : scan_input).

(** The object a call resolves to; a property the call does not return
    reads as [undefined]. *)
Record ddb_output : Type := DdbOutput {
  out_Item : value;
  out_Attributes : value;
  out_Count : value;
  out_Items : value
}.

Definition empty_output : ddb_output :=
  DdbOutput VUndefined VUndefined VUndefined VUndefined.

Inductive promise_result : Type :=
| Fulfilled (out : ddb_output)
| Rejected (err : js_error).

(* ===================================================================== *)
(** ** Programs: return, or await a store call *)
(* ===================================================================== *)

Inductive prog (R : Type) : Type :=
| Ret (r : R)
| Await (c : ddb_call) (k : promise_result -> prog R).

Arguments Ret {R} r.
Arguments Await {R} c k.

Fixpoint prog_bind {A B : Type} (p : prog A) (f : A -> prog B) : prog B :=
  match p with
  | Ret a => f a
  | Await c k => Await c (fun o => prog_bind (k o) f)
  end.

Definition prog_map {A B : Type} (f : A -> B) (p : prog A) : prog B :=
  prog_bind p (fun a => Ret (f a)).

(** The body of a [try] block: a program that returns or throws. *)
Definition attempt (A : Type) : Type := prog (js_error + A).

Definition ret {A : Type} (a : A) : attempt A := Ret (inr a).
Definition throw {A : Type} (e : js_error) : attempt A := Ret (inl e).

Definition bind {A B : Type} (m : attempt A) (f : A -> attempt B) : attempt B :=
  prog_bind m (fun x => match x with inl e => Ret (inl e) | inr a => f a end).

(** [await c.promise()]: a rejection is thrown at the [await]. *)
Definition await (c : ddb_call) : attempt ddb_output :=
  Await c (fun o => match o with Fulfilled out => ret out | Rejected e => throw e end).

(** A synchronous call that may throw. *)
Definition lift {A : Type} (x : js_error + A) : attempt A := Ret x.

(** [try { body } catch (err) { handler }] *)
Definition try_catch {A : Type} (body : attempt A) (handler : js_error -> A) : prog A :=
  prog_map (fun x => match x with inl e => handler e | inr a => a end) body.

Notation "'let!' x ':=' m 'in' k" := (bind m (fun x => k))
  (at level 10, x name, m at level 200, k at level 200, only parsing).

(* ===================================================================== *)
(** ** Requests and responses *)
(* ===================================================================== *)

(** The proxy event: [event.body] is a string or [null];
    [event.pathParameters] is an object of strings or [null]. *)
Record event : Type := Event {
  ev_body : option string;
  ev_pathParameters : option (list (string * string))
}.

Record response : Type := Response {
  statusCode : Z;
  headers : option (list (string * string));
  body : string
}.

Definition cors_headers : list (string * string) :=
  [ ("Content-Type", "application/json");
    ("Access-Control-Allow-Origin", "*");
    ("Access-Control-Allow-Headers", "Content-Type,Authorization");
    ("Access-Control-Allow-Methods", "GET,POST,PUT,DELETE,OPTIONS") ].

(** [['pk', 'createdAt'].includes(k)] *)
Definition includes (l : list string) (k : string) : bool :=
  existsb (String.eqb k) l.

(** The three locals [names], [values], [sets] of [updateItem]. *)
Record update_parts : Type := UpdateParts {
  names : props;
  values : props;
  sets : list string
}.

Definition CONDITIONAL_CHECK_FAILED : string := "ConditionalCheckFailedException".

Section Handlers.

Context `{Runtime}.

(** [res] (part_000, lines 7-16) *)
Definition res (code : Z) (data : value) : response :=
  {| statusCode := code;
     headers := Some cors_headers;
     body := JSON_stringify data |}.

(** [{ ok: false, error: msg }] *)
Definition failure (msg : string) : value :=
  object_literal [Field "ok" (VBool false); Field "error" (VStr msg)].

(** [event.body ? JSON.parse(event.body) : {}] *)
Definition parse_body (ev : event) : attempt value :=
  match ev_body ev with
  | Some s => if String.eqb s "" then ret (object_literal []) else lift (JSON_parse s)
  | None => ret (object_literal [])
  end.

(** [event.pathParameters?.id] *)
Definition path_id (ev : event) : value :=
  match ev_pathParameters ev with
  | Some ps =>
      match List.find (fun kv => String.eqb kv.1 "id") ps with
      | Some kv => VStr kv.2
      | None => VUndefined
      end
  | None => VUndefined
  end.

(** [!body || typeof body !== 'object'] *)
Definition not_an_object (b : value) : bool :=
  negb (to_boolean b) || negb (String.eqb (typeof b) "object").

(** The object literal of lines 42-48. *)
Definition new_item (b : value) (rid now1 now2 : string) : value :=
  object_literal
    [ Field "pk" (VStr rid);
      Field "name" (get b "name");
      Spread b;
      Field "createdAt" (VStr now1);
      Field "updatedAt" (VStr now2) ].

(** The messages of the two validation failures of [createItem]. *)
Definition INVALID_JSON_BODY : string := "Invalid JSON body".
Definition NAME_REQUIRED : string :=
  "Field " +:+ dquote +:+ "name" +:+ dquote +:+ " is required".

(** [createItem] (part_000, lines 32-55).  [rid] is the result of
    [randomId()]; [now1] and [now2] are the results of the first and of
    the second [new Date().toISOString()]. *)
Definition createItem (ev : event) (rid now1 now2 : string) : prog response :=
  try_catch
    (let! b := parse_body ev in
     if not_an_object b then
       ret (res 400 (failure INVALID_JSON_BODY))
     else if negb (to_boolean (get b "name")) then
       ret (res 400 (failure NAME_REQUIRED))
     else
       let item := new_item b rid now1 now2 in
       let! _ := await (Put {| put_TableName := TABLE_NAME;
                               put_Item := item;
                               put_ConditionExpression := Some "attribute_not_exists(pk)" |}) in
       ret (res 201 (object_literal [Field "ok" (VBool true); Field "item" item])))
    (fun err => res 500 (failure (err_message err))).

(** [getItem] (part_000, lines 60-72) *)
Definition getItem (ev : event) : prog response :=
  try_catch
    (let id := path_id ev in
     if negb (to_boolean id) then ret (res 400 (failure "Missing id"))
     else
       let! out := await (Get {| get_TableName := TABLE_NAME;
                                 get_Key := object_literal [Field "pk" id] |}) in
       if negb (to_boolean (out_Item out)) then ret (res 404 (failure "Not found"))
       else ret (res 200 (object_literal [Field "ok" (VBool true); Field "item" (out_Item out)])))
    (fun err => res 500 (failure (err_message err))).

(** [Object.keys(body).filter(k => !['pk', 'createdAt'].includes(k))] *)
Definition allowed_keys (b : value) : list string :=
  List.filter (fun k => negb (includes ["pk"; "createdAt"] k)) (Object_keys b).

(** The callback of [allowed.forEach] (part_000, lines 96-100). *)
Definition add_field (b : value) (st : update_parts) (k : string) (i : nat) : update_parts :=
  {| names := set_prop ("#k" +:+ index_string i) (VStr k) (names st);
     values := set_prop (":v" +:+ index_string i) (get b k) (values st);
     sets := sets st ++ ["#k" +:+ index_string i +:+ " = :v" +:+ index_string i] |}.

(** Lines 92-104: the three locals after the loop and the [updatedAt]
    entries; [now] is the result of [new Date().toISOString()]. *)
Definition build_update (b : value) (allowed : list string) (now : string) : update_parts :=
  let st := forEach (add_field b) allowed {| names := []; values := []; sets := [] |} in
  {| names := set_prop "#updatedAt" (VStr "updatedAt") (names st);
     values := set_prop ":updatedNow" (VStr now) (values st);
     sets := sets st ++ ["#updatedAt = :updatedNow"] |}.

(** The parameter object of [ddb.update] (lines 106-114). *)
Definition update_params (id : value) (u : update_parts) : update_input :=
  {| upd_TableName := TABLE_NAME;
     upd_Key := object_literal [Field "pk" id];
     upd_UpdateExpression := "SET " +:+ String.concat ", " (sets u);
     upd_ExpressionAttributeNames := VObj (names u);
     upd_ExpressionAttributeValues := VObj (values u);
     upd_ConditionExpression := "attribute_exists(pk)";
     upd_ReturnValues := "ALL_NEW" |}.

(** The [catch] block of [updateItem] and of [deleteItem]. *)
Definition not_found_or_fault (err : js_error) : response :=
  let code := if code_is err CONDITIONAL_CHECK_FAILED then 404%Z else 500%Z in
  res code (failure (err_message err)).

(** [updateItem] (part_000, lines 78-122) *)
Definition updateItem (ev : event) (now : string) : prog response :=
  try_catch
    (let id := path_id ev in
     if negb (to_boolean id) then ret (res 400 (failure "Missing id"))
     else
       let! b := parse_body ev in
       if not_an_object b then ret (res 400 (failure INVALID_JSON_BODY))
       else
         let allowed := allowed_keys b in
         if (length allowed =? 0)%nat then ret (res 400 (failure "No updatable fields"))
         else
           let! out := await (Update (update_params id (build_update b allowed now))) in
           ret (res 200 (object_literal [Field "ok" (VBool true);
                                         Field "item" (out_Attributes out)])))
    not_found_or_fault.

(** [deleteItem] (part_000, lines 127-143) *)
Definition deleteItem (ev : event) : prog response :=
  try_catch
    (let id := path_id ev in
     if negb (to_boolean id) then ret (res 400 (failure "Missing id"))
     else
       let! _ := await (Delete {| del_TableName := TABLE_NAME;
                                  del_Key := object_literal [Field "pk" id];
                                  del_ConditionExpression := "attribute_exists(pk)" |}) in
       ret (res 204 (object_literal [Field "ok" (VBool true)])))
    not_found_or_fault.

(** [listItems] (part_000, lines 149-156) *)
Definition listItems : prog response :=
  try_catch
    (let! out := await (Scan {| scan_TableName := TABLE_NAME; scan_Limit := 100 |}) in
     ret (res 200 (object_literal
                     [ Field "ok" (VBool true);
                       Field "count" (nullish (out_Count out) (VNum PrimFloat.zero));
                       Field "items" (nullish (out_Items out) (VArr [])) ])))
    (fun err => res 500 (failure (err_message err))).

(** [hello] (api/handler.js, lines 11-34).  [now] is the result of
    [Date.now()].  The first component of the result lists what the
    routine passed to [console.error]. *)
Definition hello (now : float) : prog (list js_error * response) :=
  try_catch
    (let item := object_literal [Field "pk" (VStr "hello"); Field "ts" (VNum now)] in
     let! _ := await (Put {| put_TableName := TABLE_NAME;
                             put_Item := item;
                             put_ConditionExpression := None |}) in
     ret ([], {| statusCode := 200;
                 headers := None;
                 body := JSON_stringify
                           (object_literal [Field "ok" (VBool true); Field "saved" item]) |}))
    (fun err =>
       ([err], {| statusCode := 500;
                  headers := None;
                  body := JSON_stringify (failure (err_message err)) |})).

End Handlers.

(* ===================================================================== *)
(** ** Running a program against a store *)
(* ===================================================================== *)

(** A store answers each call and moves to its next state. *)
Definition store (St : Type) : Type := ddb_call -> St -> promise_result * St.

Fixpoint run {St R : Type} (ddb : store St) (p : prog R) (s : St) : R * St :=
  match p with
  | Ret r => (r, s)
  | Await c k => let '(o, s') := ddb c s in run ddb (k o) s'
  end.

(** Every response the program can return, whatever the store answers. *)
Fixpoint always {R : Type} (P : R -> Prop) (p : prog R) : Prop :=
  match p with
  | Ret r => P r
  | Await _ k => forall o, always P (k o)
  end.

(** The program returns without calling the store. *)
Definition no_store_call {R : Type} (p : prog R) : Prop :=
  match p with
  | Ret _ => True
  | Await _ _ => False
  end.

(* ===================================================================== *)
(** ** The backing table *)
(* ===================================================================== *)

(** *** Update expressions *)

(** Modelled from the spec: the store's reading of an update expression
    (the SDK and the service behind it are not part of the repository).
    An expression is [SET] followed by clauses [path = operand]
    separated by commas, white space around the tokens being ignored. *)

Fixpoint split_char (c : ascii) (s : string) : list string :=
  match s with
  | EmptyString => [EmptyString]
  | String a s' =>
      if Ascii.eqb a c then EmptyString :: split_char c s'
      else match split_char c s' with
           | h :: t => String a h :: t
           | [] => [String a EmptyString]
           end
  end.

Definition is_space (c : ascii) : bool := Ascii.eqb c " "%char.

Fixpoint ltrim (s : string) : string :=
  match s with
  | String c s' => if is_space c then ltrim s' else s
  | EmptyString => EmptyString
  end.

Fixpoint rtrim (s : string) : string :=
  match s with
  | String c s' =>
      match rtrim s' with
      | EmptyString => if is_space c then EmptyString else String c EmptyString
      | r => String c r
      end
  | EmptyString => EmptyString
  end.

Definition trim (s : string) : string := rtrim (ltrim s).

Fixpoint strip_prefix (p s : string) : option string :=
  match p, s with
  | EmptyString, _ => Some s
  | String a p', String b s' => if Ascii.eqb a b then strip_prefix p' s' else None
  | String _ _, EmptyString => None
  end.

(** One [path = operand] clause. *)
Definition parse_clause (s : string) : option (string * string) :=
  match split_char "="%char s with
  | [l; r] =>
      let p := trim l in
      let o := trim r in
      if String.eqb p "" || String.eqb o "" then None else Some (p, o)
  | _ => None
  end.

Fixpoint parse_clauses (l : list string) : option (list (string * string)) :=
  match l with
  | [] => Some []
  | c :: l' =>
      match parse_clause c, parse_clauses l' with
      | Some x, Some xs => Some (x :: xs)
      | _, _ => None
      end
  end.

(** [SET path = operand, path = operand, ...] *)
Definition parse_update_expression (s : string) : option (list (string * string)) :=
  match strip_prefix "SET " s with
  | Some rest => parse_clauses (split_char ","%char rest)
  | None => None
  end.

(** A path is a placeholder [#...] looked up in the attribute names, or
    else an attribute name written out in the expression. *)
Definition resolve_path (attr_names : value) (p : string) : option string :=
  match p with
  | String "#"%char _ =>
      match get attr_names p with
      | VStr a => Some a
      | _ => None
      end
  | _ => Some p
  end.

(** An operand is a placeholder [:...] looked up in the attribute values. *)
Definition resolve_operand (attr_values : value) (o : string) : option value :=
  match o with
  | String ":"%char _ =>
      match get attr_values o with
      | VUndefined => None
      | v => Some v
      end
  | _ => None
  end.

Fixpoint resolve_clauses (attr_names attr_values : value)
    (l : list (string * string)) : option (list (string * value)) :=
  match l with
  | [] => Some []
  | (p, o) :: l' =>
      match resolve_path attr_names p, resolve_operand attr_values o,
            resolve_clauses attr_names attr_values l' with
      | Some a, Some v, Some rest => Some ((a, v) :: rest)
      | _, _, _ => None
      end
  end.

(** *** The table *)

(** Modelled from the spec: the backing store adapter (section 6) is the
    SDK's document client, which is not part of the repository.  One
    table keyed by the string attribute [pk]; conditional insert,
    point lookup, conditional partial update, conditional delete and
    bounded scan, each answering success, conflict, or another fault. *)
Record table : Type := Table {
  tbl_name : string;
  tbl_items : gmap string value
}.

Definition fault (code msg : string) : promise_result :=
  Rejected {| err_code := Some code; err_message := msg |}.

Definition conflict : promise_result :=
  fault CONDITIONAL_CHECK_FAILED "The conditional request failed".

Definition invalid (msg : string) : promise_result :=
  fault "ValidationException" msg.

Definition no_such_table : promise_result :=
  fault "ResourceNotFoundException" "Requested resource not found".

Definition same_table (t : table) (name : value) : bool :=
  match name with
  | VStr n => String.eqb n (tbl_name t)
  | _ => false
  end.

(** The key of an item or of a [Key] parameter: a non-empty string [pk]. *)
Definition key_of (v : value) : option string :=
  match get v "pk" with
  | VStr s => if String.eqb s "" then None else Some s
  | _ => None
  end.

(** The two conditions the handlers use; [None] for any other text. *)
Definition check_condition (cond : option string) (present : bool) : option bool :=
  match cond with
  | None => Some true
  | Some c =>
      if String.eqb c "attribute_exists(pk)" then Some present
      else if String.eqb c "attribute_not_exists(pk)" then Some (negb present)
      else None
  end.

Definition present (t : table) (pk : string) : bool :=
  match tbl_items t !! pk with Some _ => true | None => false end.

Definition with_items (t : table) (m : gmap string value) : table :=
  {| tbl_name := tbl_name t; tbl_items := m |}.

Definition mem_put (i : put_input) (t : table) : promise_result * table :=
  if negb (same_table t (put_TableName i)) then (no_such_table, t)
  else match key_of (put_Item i) with
       | None => (invalid "One or more parameter values were invalid: key", t)
       | Some pk =>
           match check_condition (put_ConditionExpression i) (present t pk) with
           | None => (invalid "Invalid ConditionExpression", t)
           | Some false => (conflict, t)
           | Some true =>
               (Fulfilled empty_output, with_items t (<[pk := put_Item i]> (tbl_items t)))
           end
       end.

Definition mem_get (i : get_input) (t : table) : promise_result * table :=
  if negb (same_table t (get_TableName i)) then (no_such_table, t)
  else match key_of (get_Key i) with
       | None => (invalid "The provided key element does not match the schema", t)
       | Some pk =>
           let item := match tbl_items t !! pk with Some it => it | None => VUndefined end in
           (Fulfilled {| out_Item := item; out_Attributes := VUndefined;
                         out_Count := VUndefined; out_Items := VUndefined |}, t)
       end.

Definition mem_update (i : update_input) (t : table) : promise_result * table :=
  if negb (same_table t (upd_TableName i)) then (no_such_table, t)
  else match key_of (upd_Key i), parse_update_expression (upd_UpdateExpression i) with
       | None, _ => (invalid "The provided key element does not match the schema", t)
       | Some _, None => (invalid "Invalid UpdateExpression: Syntax error", t)
       | Some pk, Some clauses =>
           match resolve_clauses (upd_ExpressionAttributeNames i)
                                 (upd_ExpressionAttributeValues i) clauses with
           | None => (invalid "Invalid UpdateExpression: an attribute name or value is not defined", t)
           | Some l =>
               if negb (bool_decide (NoDup l.*1)) then
                 (invalid "Invalid UpdateExpression: Two document paths overlap with each other", t)
               else if includes l.*1 "pk" then
                 (invalid "One or more parameter values were invalid: Cannot update attribute pk. This attribute is part of the key", t)
               else
                 match check_condition (Some (upd_ConditionExpression i)) (present t pk) with
                 | None => (invalid "Invalid ConditionExpression", t)
                 | Some false => (conflict, t)
                 | Some true =>
                     let old := match tbl_items t !! pk with
                                | Some it => own_props it
                                | None => [("pk", VStr pk)]
                                end in
                     (* SET assigns each attribute of the clause list *)
                     let new := VObj (assign_props old l) in
                     (Fulfilled {| out_Item := VUndefined;
                                   out_Attributes :=
                                     if String.eqb (upd_ReturnValues i) "ALL_NEW"
                                     then new else VUndefined;
                                   out_Count := VUndefined; out_Items := VUndefined |},
                      with_items t (<[pk := new]> (tbl_items t)))
                 end
           end
       end.

Definition mem_delete (i : delete_input) (t : table) : promise_result * table :=
  if negb (same_table t (del_TableName i)) then (no_such_table, t)
  else match key_of (del_Key i) with
       | None => (invalid "The provided key element does not match the schema", t)
       | Some pk =>
           match check_condition (Some (del_ConditionExpression i)) (present t pk) with
           | None => (invalid "Invalid ConditionExpression", t)
           | Some false => (conflict, t)
           | Some true => (Fulfilled empty_output, with_items t (delete pk (tbl_items t)))
           end
       end.

Definition number_of_nat (n : nat) : float :=
  PrimFloat.of_uint63 (Uint63.of_Z (Z.of_nat n)).

Definition mem_scan (i : scan_input) (t : table) : promise_result * table :=
  if negb (same_table t (scan_TableName i)) then (no_such_table, t)
  else
    let items := take (Z.to_nat (scan_Limit i)) (map_to_list (tbl_items t)).*2 in
    (Fulfilled {| out_Item := VUndefined; out_Attributes := VUndefined;
                  out_Count := VNum (number_of_nat (length items));
                  out_Items := VArr items |}, t).

(** Modelled from the spec: the five operations of the backing store
    adapter (section 6), on the table above. *)
Definition mem_ddb : store table := fun c t =>
  match c with
  | Put i => mem_put i t
  | Get i => mem_get i t
  | Update i => mem_update i t
  | Delete i => mem_delete i t
  | Scan i => mem_scan i t
  end.

(** A serializer for the examples: properties whose value is [undefined]
    are left out, strings are written between quotes without escapes and
    every number as [0]. *)
Fixpoint show (v : value) : string :=
  match v with
  | VUndefined => "undefined"
  | VNull => "null"
  | VBool true => "true"
  | VBool false => "false"
  | VNum _ => "0"
  | VStr s => dquote +:+ s +:+ dquote
  | VArr l => "[" +:+ String.concat "," (map show l) +:+ "]"
  | VObj ps =>
      let member kv :=
        match kv with
        | (_, VUndefined) => []
        | (k, x) => [dquote +:+ k +:+ dquote +:+ ":" +:+ show x]
        end in
      "{" +:+ String.concat "," (List.concat (map member ps)) +:+ "}"
  end.

(** A runtime for examples: [JSON.parse] answers from a table of
    bodies (a body outside the table is a syntax error), and
    [JSON.stringify] is [show]. *)
Definition syntax_error : js_error :=
  {| err_code := None; err_message := "Unexpected token in JSON" |}.

Definition table_parse (l : list (string * value)) (s : string) : js_error + value :=
  match List.find (fun kv => String.eqb kv.1 s) l with
  | Some kv => inr kv.2
  | None => inl syntax_error
  end.

Definition example_runtime (bodies : list (string * value)) : Runtime :=
  {| JSON_parse := table_parse bodies;
     JSON_stringify := show;
     TABLE_NAME := VStr "items" |}.

(* ===================================================================== *)
(** ** The shape of a partial update *)
(* ===================================================================== *)

(** What [updateItem] hands to the store for the allowed keys
    [k_0, ..., k_{n-1}], written out entry by entry.  The properties
    below show that [build_update] computes exactly these. *)

(** [{ '#k<i>': k_i, ... }] from index [i] on. *)
Fixpoint name_entries_from (i : nat) (l : list string) : props :=
  match l with
  | [] => []
  | k :: l' => ("#k" +:+ index_string i, VStr k) :: name_entries_from (S i) l'
  end.

(** [{ ':v<i>': body[k_i], ... }] from index [i] on. *)
Fixpoint value_entries_from (b : value) (i : nat) (l : list string) : props :=
  match l with
  | [] => []
  | k :: l' => (":v" +:+ index_string i, get b k) :: value_entries_from b (S i) l'
  end.

(** The placeholder pairs [(#k<i>, :v<i>)] for [n] fields from index [i]
    on: they depend on the number of fields only. *)
Fixpoint placeholders_from (i n : nat) : list (string * string) :=
  match n with
  | O => []
  | S n' => ("#k" +:+ index_string i, ":v" +:+ index_string i) :: placeholders_from (S i) n'
  end.

Definition updatedAt_placeholders : string * string := ("#updatedAt", ":updatedNow").

(** All placeholder pairs of an update of [n] caller fields. *)
Definition placeholders (n : nat) : list (string * string) :=
  placeholders_from 0 n ++ [updatedAt_placeholders].

(** The text of one [SET] clause. *)
Definition render_clause (c : string * string) : string :=
  c.1 +:+ " = " +:+ c.2.

(** The update expression of an update of [n] caller fields. *)
Definition expression_template (n : nat) : string :=
  "SET " +:+ String.concat ", " (map render_clause (placeholders n)).

(** The characters that separate the tokens of an update expression. *)
Definition plain_char (c : ascii) : bool :=
  negb (Ascii.eqb c ","%char) && negb (Ascii.eqb c "="%char) && negb (Ascii.eqb c " "%char).

Fixpoint plain (s : string) : bool :=
  match s with
  | EmptyString => true
  | String c s' => plain_char c && plain s'
  end.

Fixpoint lacks (c : ascii) (s : string) : bool :=
  match s with
  | EmptyString => true
  | String a s' => negb (Ascii.eqb a c) && lacks c s'
  end.

(** A pair of non-empty tokens free of separators. *)
Definition token_pair (c : string * string) : Prop :=
  plain c.1 = true /\ plain c.2 = true /\ c.1 <> "" /\ c.2 <> "".

(** The body without the two reserved keys. *)
Definition drop_reserved (b : value) : value :=
  VObj (List.filter (fun kv => negb (includes ["pk"; "createdAt"] kv.1)) (own_props b)).


(* ===================================================================== *)
(** ** The paths through [createItem] and [updateItem] *)
(* ===================================================================== *)

Section Paths.

Context `{Runtime}.

(** The ways through [createItem], one per [return] of the source, each
    with the guards that lead to it. *)
Inductive createItem_path (ev : event) (rid now1 now2 : string) : prog response -> Prop :=
| create_parse_error (e : js_error) :
    parse_body ev = throw e ->
    createItem_path ev rid now1 now2 (Ret (res 500 (failure (err_message e))))
| create_invalid_body (b : value) :
    parse_body ev = ret b -> not_an_object b = true ->
    createItem_path ev rid now1 now2 (Ret (res 400 (failure INVALID_JSON_BODY)))
| create_missing_name (b : value) :
    parse_body ev = ret b -> not_an_object b = false ->
    to_boolean (get b "name") = false ->
    createItem_path ev rid now1 now2 (Ret (res 400 (failure NAME_REQUIRED)))
| create_store_call (b : value) (k : promise_result -> prog response) :
    parse_body ev = ret b -> not_an_object b = false ->
    to_boolean (get b "name") = true ->
    (forall out, k (Fulfilled out) =
       Ret (res 201 (object_literal [Field "ok" (VBool true);
                                     Field "item" (new_item b rid now1 now2)]))) ->
    (forall e, k (Rejected e) = Ret (res 500 (failure (err_message e)))) ->
    createItem_path ev rid now1 now2
      (Await (Put {| put_TableName := TABLE_NAME;
                     put_Item := new_item b rid now1 now2;
                     put_ConditionExpression := Some "attribute_not_exists(pk)" |}) k).

(** The ways through [updateItem]. *)
Inductive updateItem_path (ev : event) (now : string) : prog response -> Prop :=
| update_missing_id :
    to_boolean (path_id ev) = false ->
    updateItem_path ev now (Ret (res 400 (failure "Missing id")))
| update_parse_error (e : js_error) :
    to_boolean (path_id ev) = true -> parse_body ev = throw e ->
    updateItem_path ev now (Ret (not_found_or_fault e))
| update_invalid_body (b : value) :
    to_boolean (path_id ev) = true -> parse_body ev = ret b ->
    not_an_object b = true ->
    updateItem_path ev now (Ret (res 400 (failure INVALID_JSON_BODY)))
| update_no_fields (b : value) :
    to_boolean (path_id ev) = true -> parse_body ev = ret b ->
    not_an_object b = false -> allowed_keys b = [] ->
    updateItem_path ev now (Ret (res 400 (failure "No updatable fields")))
| update_store_call (b : value) (k : promise_result -> prog response) :
    to_boolean (path_id ev) = true -> parse_body ev = ret b ->
    not_an_object b = false -> allowed_keys b <> [] ->
    (forall out, k (Fulfilled out) =
       Ret (res 200 (object_literal [Field "ok" (VBool true);
                                     Field "item" (out_Attributes out)]))) ->
    (forall e, k (Rejected e) = Ret (not_found_or_fault e)) ->
    updateItem_path ev now
      (Await (Update (update_params (path_id ev)
                        (build_update b (allowed_keys b) now))) k).

(** The uniform response: the fixed headers, and on a failure status the
    body [{ ok: false, error: <message> }]. *)
Definition error_shaped (r : response) : Prop :=
  (400 <= statusCode r)%Z -> exists msg, body r = JSON_stringify (failure msg).

Definition uniform (r : response) : Prop :=
  headers r = Some cors_headers /\ error_shaped r.

End Paths.


(* ===================================================================== *)
(** ** Example requests *)
(* ===================================================================== *)

(** A runtime that knows three bodies: an object with the two reserved
    keys and one more, an object with the reserved keys only, and an
    array. *)
Definition rt0 : Runtime :=
  example_runtime
    [ ("FULL", VObj [("pk", VStr "x"); ("createdAt", VStr "y"); ("foo", VStr "bar")]);
      ("RESERVED", VObj [("pk", VStr "x"); ("createdAt", VStr "y")]);
      ("ARRAY", VArr [VStr "a"; VStr "b"]);
      ("WIDGET", VObj [("name", VStr "widget"); ("createdAt", VStr "1999")]) ].

Definition request (b : string) : event :=
  {| ev_body := Some b; ev_pathParameters := Some [("id", "a1")] |}.

Definition stored_a1 : value :=
  VObj [("pk", VStr "a1"); ("name", VStr "widget");
        ("createdAt", VStr "T0"); ("updatedAt", VStr "T0")].

Definition table0 : table :=
  {| tbl_name := "items"; tbl_items := {[ "a1" := stored_a1 ]} |}.


(** A runtime that knows a body with its own [updatedAt]. *)
Definition rt1 : Runtime :=
  example_runtime [("STAMPED", VObj [("foo", VStr "bar"); ("updatedAt", VStr "1999")])].

(* ===================================================================== *)
(** ** Properties of objects *)
(* ===================================================================== *)

Lemma has_prop_elem (k : string) (ps : props) :
  has_prop k ps = true <-> k ∈ ps.*1.
Proof.
  induction ps as [|[k0 v0] ps IH]; simpl.
  - split; [discriminate | intros Hin; inversion Hin].
  - rewrite orb_true_iff, IH, elem_of_cons, String.eqb_eq.
    split; intros [->|?]; auto.
Qed.

Lemma has_prop_app (k : string) (ps qs : props) :
  has_prop k (ps ++ qs) = has_prop k ps || has_prop k qs.
Proof.
  induction ps as [|[k0 v0] ps IH]; simpl; [done|].
  by rewrite IH, orb_assoc.
Qed.

(** Case analysis on every string comparison of the goal. *)
Ltac string_cases :=
  repeat match goal with
         | |- context [String.eqb ?a ?b] => destruct (String.eqb_spec a b)
         end;
  subst; try congruence; try done.

Lemma has_prop_cons_false (k k0 : string) (v0 : value) (ps : props) :
  has_prop k ((k0, v0) :: ps) = false -> k0 <> k /\ has_prop k ps = false.
Proof.
  simpl. intros [Hne Hps]%orb_false_iff. by apply String.eqb_neq in Hne.
Qed.

Lemma lookup_replace_prop (k k' : string) (v : value) (ps : props) :
  has_prop k ps = true ->
  lookup_prop k' (replace_prop k v ps) =
    if String.eqb k k' then v else lookup_prop k' ps.
Proof.
  induction ps as [|[k0 v0] ps IH]; simpl; [discriminate|].
  destruct (String.eqb_spec k0 k) as [->|Hne]; simpl.
  - intros _. string_cases.
  - intros Hin. rewrite (IH Hin). string_cases.
Qed.

Lemma lookup_insert_index (n : N) (k k' : string) (v : value) (ps : props) :
  has_prop k ps = false ->
  lookup_prop k' (insert_index n k v ps) =
    if String.eqb k k' then v else lookup_prop k' ps.
Proof.
  induction ps as [|[k0 v0] ps IH]; [done|].
  intros [Hne Hps]%has_prop_cons_false. simpl.
  destruct (array_index k0) as [m|]; [destruct (m <? n)%N|]; simpl; try done.
  rewrite (IH Hps). string_cases.
Qed.

Lemma lookup_append_prop (k k' : string) (v : value) (ps : props) :
  has_prop k ps = false ->
  lookup_prop k' (ps ++ [(k, v)]) =
    if String.eqb k k' then v else lookup_prop k' ps.
Proof.
  induction ps as [|[k0 v0] ps IH].
  - intros _. simpl. string_cases.
  - intros [Hne Hps]%has_prop_cons_false. simpl. rewrite (IH Hps). string_cases.
Qed.

(** Reading a property after an assignment. *)
Lemma lookup_set_prop (k k' : string) (v : value) (ps : props) :
  lookup_prop k' (set_prop k v ps) =
    if String.eqb k k' then v else lookup_prop k' ps.
Proof.
  unfold set_prop. destruct (has_prop k ps) eqn:Hin.
  - by apply lookup_replace_prop.
  - destruct (array_index k).
    + by apply lookup_insert_index.
    + by apply lookup_append_prop.
Qed.

Lemma set_prop_fresh (k : string) (v : value) (ps : props) :
  has_prop k ps = false -> array_index k = None ->
  set_prop k v ps = ps ++ [(k, v)].
Proof. intros Hin Hidx. unfold set_prop. by rewrite Hin, Hidx. Qed.

(** Assigning a list of properties leaves the other keys alone. *)
Lemma lookup_assign_other (k : string) (l : list (string * value)) (ps : props) :
  k ∉ l.*1 -> lookup_prop k (assign_props ps l) = lookup_prop k ps.
Proof.
  unfold assign_props. revert ps.
  induction l as [|[k0 v0] l IH]; intros ps Hnot; simpl; [done|].
  rewrite fmap_cons, not_elem_of_cons in Hnot. destruct Hnot as [Hne Hl].
  rewrite (IH _ Hl), lookup_set_prop. simpl. string_cases.
Qed.

(* ===================================================================== *)
(** ** Placeholders *)
(* ===================================================================== *)

Lemma index_string_inj (i j : nat) : index_string i = index_string j -> i = j.
Proof.
  unfold index_string. intros Heq.
  apply Unsigned.to_uint_inj.
  apply (f_equal NilEmpty.uint_of_string) in Heq.
  rewrite !NilEmpty.usu in Heq. congruence.
Qed.

Lemma array_index_hash (s : string) : array_index (String "#"%char s) = None.
Proof.
  unfold array_index. simpl. by destruct (NilEmpty.uint_of_string s).
Qed.

Lemma array_index_colon (s : string) : array_index (String ":"%char s) = None.
Proof.
  unfold array_index. simpl. by destruct (NilEmpty.uint_of_string s).
Qed.

Lemma name_key_inj (i j : nat) :
  "#k" +:+ index_string i = "#k" +:+ index_string j -> i = j.
Proof. simpl. intros [= Heq]. by apply index_string_inj. Qed.

Lemma value_key_inj (i j : nat) :
  ":v" +:+ index_string i = ":v" +:+ index_string j -> i = j.
Proof. simpl. intros [= Heq]. by apply index_string_inj. Qed.

Lemma name_entries_no_updatedAt (i : nat) (l : list string) :
  has_prop "#updatedAt" (name_entries_from i l) = false.
Proof. revert i. induction l as [|k l IH]; intros i; simpl; [done|apply IH]. Qed.

Lemma value_entries_no_updatedNow (b : value) (i : nat) (l : list string) :
  has_prop ":updatedNow" (value_entries_from b i l) = false.
Proof. revert i. induction l as [|k l IH]; intros i; simpl; [done|apply IH]. Qed.

Lemma has_prop_single_name (i j : nat) (v : value) :
  i <> j -> has_prop ("#k" +:+ index_string j) [("#k" +:+ index_string i, v)] = false.
Proof.
  intros Hne. cbn [has_prop]. rewrite orb_false_r. apply String.eqb_neq.
  intros Heq. by apply name_key_inj in Heq.
Qed.

Lemma has_prop_single_value (i j : nat) (v : value) :
  i <> j -> has_prop (":v" +:+ index_string j) [(":v" +:+ index_string i, v)] = false.
Proof.
  intros Hne. cbn [has_prop]. rewrite orb_false_r. apply String.eqb_neq.
  intros Heq. by apply value_key_inj in Heq.
Qed.

(** The loop of lines 96-100, started at index [i] on a state whose
    placeholders are all below [i]: it appends one entry per key. *)
Lemma forEach_add_field (b : value) (l : list string) :
  forall (i : nat) (st : update_parts),
    (forall j, i <= j -> has_prop ("#k" +:+ index_string j) (names st) = false) ->
    (forall j, i <= j -> has_prop (":v" +:+ index_string j) (values st) = false) ->
    forEach_from (add_field b) i l st =
      {| names := names st ++ name_entries_from i l;
         values := values st ++ value_entries_from b i l;
         sets := sets st ++ map render_clause (placeholders_from i (length l)) |}.
Proof.
  induction l as [|k l IH]; intros i st Hn Hv.
  - simpl. rewrite !app_nil_r. by destruct st.
  - cbn [forEach_from]. rewrite IH.
    + unfold add_field. cbn [names values sets].
      rewrite !set_prop_fresh by
        (first [apply Hn | apply Hv | apply array_index_hash | apply array_index_colon]; lia).
      cbn [name_entries_from value_entries_from placeholders_from length map].
      rewrite <- !app_assoc. reflexivity.
    + intros j Hj. unfold add_field. cbn [names].
      rewrite set_prop_fresh by (first [apply Hn; lia | apply array_index_hash]).
      rewrite has_prop_app, Hn by lia. apply has_prop_single_name. lia.
    + intros j Hj. unfold add_field. cbn [values].
      rewrite set_prop_fresh by (first [apply Hv; lia | apply array_index_colon]).
      rewrite has_prop_app, Hv by lia. apply has_prop_single_value. lia.
Qed.

(** The three locals of [updateItem] after lines 92-104. *)
Lemma build_update_entries (b : value) (l : list string) (now : string) :
  build_update b l now =
    {| names := name_entries_from 0 l ++ [("#updatedAt", VStr "updatedAt")];
       values := value_entries_from b 0 l ++ [(":updatedNow", VStr now)];
       sets := map render_clause (placeholders (length l)) |}.
Proof.
  unfold build_update, forEach.
  rewrite forEach_add_field by done.
  cbn [names values sets app].
  rewrite !set_prop_fresh by
    first [apply name_entries_no_updatedAt | apply value_entries_no_updatedNow | done].
  unfold placeholders. by rewrite map_app.
Qed.

(* ===================================================================== *)
(** ** Reading an update expression back *)
(* ===================================================================== *)

Lemma append_cons (x : ascii) (a b : string) : String x a +:+ b = String x (a +:+ b).
Proof. reflexivity. Qed.

Lemma append_nil (b : string) : "" +:+ b = b.
Proof. reflexivity. Qed.

(** Push the appends of the goal below the characters in front. *)
Ltac push_append := rewrite ?append_cons, ?append_nil.

Lemma append_assoc (a b c : string) : (a +:+ b) +:+ c = a +:+ (b +:+ c).
Proof. induction a as [|x a IH]; [done|]. rewrite !append_cons. by f_equal. Qed.

Lemma plain_lacks (s : string) :
  plain s = true ->
  lacks ","%char s = true /\ lacks "="%char s = true /\ lacks " "%char s = true.
Proof.
  induction s as [|c s IH]; simpl; [done|].
  unfold plain_char. intros [[[Hc He]%andb_true_iff Hs]%andb_true_iff Hp]%andb_true_iff.
  destruct (IH Hp) as (-> & -> & ->). by rewrite Hc, He, Hs.
Qed.

Lemma plain_app (a b : string) : plain (a +:+ b) = plain a && plain b.
Proof. induction a as [|x a IH]; push_append; simpl; [done|]. by rewrite IH, andb_assoc. Qed.

Lemma lacks_app (c : ascii) (a b : string) :
  lacks c (a +:+ b) = lacks c a && lacks c b.
Proof. induction a as [|x a IH]; push_append; simpl; [done|]. by rewrite IH, andb_assoc. Qed.

Lemma split_char_lacks (c : ascii) (s : string) :
  lacks c s = true -> split_char c s = [s].
Proof.
  induction s as [|a s IH]; simpl; [done|].
  intros [Ha Hs]%andb_true_iff. apply negb_true_iff in Ha.
  by rewrite Ha, (IH Hs).
Qed.

Lemma split_char_app (c : ascii) (a b : string) :
  lacks c a = true -> split_char c (a +:+ String c b) = a :: split_char c b.
Proof.
  induction a as [|x a IH]; push_append; simpl.
  - intros _. by rewrite Ascii.eqb_refl.
  - intros [Hx Ha]%andb_true_iff. apply negb_true_iff in Hx.
    by rewrite Hx, (IH Ha).
Qed.

Lemma rtrim_lacks (s : string) : lacks " "%char s = true -> rtrim s = s.
Proof.
  induction s as [|c s IH]; simpl; [done|].
  intros [Hc Hs]%andb_true_iff. apply negb_true_iff in Hc.
  rewrite (IH Hs). unfold is_space. rewrite Hc. by destruct s.
Qed.

Lemma rtrim_app_space (s : string) :
  lacks " "%char s = true -> rtrim (s +:+ " ") = s.
Proof.
  induction s as [|c s IH]; push_append; simpl; [done|].
  intros [Hc Hs]%andb_true_iff. apply negb_true_iff in Hc.
  rewrite (IH Hs). unfold is_space. rewrite Hc. by destruct s.
Qed.

Lemma ltrim_plain (s : string) : plain s = true -> ltrim s = s.
Proof.
  destruct s as [|c s]; simpl; [done|].
  unfold plain_char, is_space.
  intros [[_ Hs]%andb_true_iff _]%andb_true_iff.
  apply negb_true_iff in Hs. by rewrite Hs.
Qed.

Lemma trim_plain (s : string) : plain s = true -> trim s = s.
Proof.
  intros Hs. unfold trim. rewrite (ltrim_plain _ Hs).
  apply rtrim_lacks. by apply plain_lacks.
Qed.

Lemma trim_plain_space (s : string) :
  plain s = true -> s <> "" -> trim (s +:+ " ") = s.
Proof.
  intros Hs Hne. unfold trim.
  assert (ltrim (s +:+ " ") = s +:+ " ") as ->.
  { destruct s as [|c s]; [done|]. push_append. simpl in *.
    unfold plain_char, is_space in *.
    apply andb_true_iff in Hs as [[_ Hc]%andb_true_iff _].
    apply negb_true_iff in Hc. by rewrite Hc. }
  apply rtrim_app_space. by apply plain_lacks.
Qed.

Lemma render_clause_no_comma (c : string * string) :
  token_pair c -> lacks ","%char (render_clause c) = true.
Proof.
  intros (H1 & H2 & _). unfold render_clause.
  rewrite lacks_app. push_append. simpl.
  apply plain_lacks in H1 as (-> & _). by apply plain_lacks in H2 as (-> & _).
Qed.

Lemma parse_clause_render (c : string * string) (lead : string) :
  token_pair c -> lead = "" \/ lead = " " ->
  parse_clause (lead +:+ render_clause c) = Some c.
Proof.
  destruct c as [p o]. intros (Hp & Ho & Hpne & Hone) Hlead.
  cbn [fst snd] in *. unfold parse_clause, render_clause. cbn [fst snd].
  replace (lead +:+ p +:+ " = " +:+ o)
    with ((lead +:+ p +:+ " ") +:+ String "="%char (" " +:+ o))
    by (by rewrite !append_assoc).
  pose proof (plain_lacks _ Hp) as (_ & Hpe & _).
  pose proof (plain_lacks _ Ho) as (_ & Hoe & _).
  rewrite split_char_app.
  2:{ rewrite !lacks_app, Hpe. by destruct Hlead as [-> | ->]. }
  rewrite split_char_lacks by (push_append; simpl; by rewrite Hoe).
  assert (trim (lead +:+ p +:+ " ") = p) as ->.
  { destruct Hlead as [-> | ->]; push_append.
    - by apply trim_plain_space.
    - unfold trim. simpl. by apply (trim_plain_space p). }
  assert (trim (" " +:+ o) = o) as ->.
  { unfold trim. push_append. simpl. by apply (trim_plain o). }
  apply String.eqb_neq in Hpne, Hone. by rewrite Hpne, Hone.
Qed.

Lemma concat_prefix (x sep c : string) (r : list string) :
  x +:+ String.concat sep (c :: r) = String.concat sep ((x +:+ c) :: r).
Proof. destruct r; cbn [String.concat]; [done|]. by rewrite append_assoc. Qed.

Lemma split_commas (c : string) (r : list string) :
  lacks ","%char c = true ->
  Forall (fun x => lacks ","%char x = true) r ->
  split_char ","%char (String.concat ", " (c :: r)) = c :: map (String.append " ") r.
Proof.
  revert c. induction r as [|c2 r IH]; intros c Hc Hr.
  - simpl. by apply split_char_lacks.
  - inversion Hr as [|? ? Hc2 Hr']; subst.
    change (String.concat ", " (c :: c2 :: r))
      with (c +:+ String ","%char (" " +:+ String.concat ", " (c2 :: r))).
    rewrite split_char_app by done.
    rewrite concat_prefix, IH; [done| |done].
    push_append. simpl. by rewrite Hc2.
Qed.

Lemma parse_clauses_render (l : list (string * string)) (lead : string) :
  Forall token_pair l -> lead = "" \/ lead = " " ->
  parse_clauses (map (fun c => lead +:+ render_clause c) l) = Some l.
Proof.
  intros Hl Hlead. induction Hl as [|c l Hc Hl IH]; simpl; [done|].
  by rewrite (parse_clause_render c lead Hc Hlead), IH.
Qed.

(** Parsing the rendering of a non-empty list of token pairs gives the
    list back. *)
Lemma parse_render (l : list (string * string)) :
  l <> [] -> Forall token_pair l ->
  parse_update_expression ("SET " +:+ String.concat ", " (map render_clause l)) = Some l.
Proof.
  intros Hne Hl. unfold parse_update_expression.
  change (strip_prefix "SET " ("SET " +:+ ?s)) with (Some s).
  destruct l as [|c l]; [done|]. inversion Hl as [|? ? Hc Hl']; subst.
  cbn [map]. rewrite split_commas.
  - cbn [parse_clauses].
    pose proof (parse_clause_render c "" Hc (or_introl eq_refl)) as Hfirst.
    rewrite append_nil in Hfirst. rewrite Hfirst.
    rewrite map_map.
    by rewrite (parse_clauses_render l " " Hl' (or_intror eq_refl)).
  - by apply render_clause_no_comma.
  - apply Forall_map. eapply Forall_impl; [exact Hl'|].
    intros ? ?. by apply render_clause_no_comma.
Qed.

Lemma plain_digits (d : Decimal.uint) : plain (NilEmpty.string_of_uint d) = true.
Proof. induction d; simpl; auto. Qed.

Lemma placeholders_from_tokens (i n : nat) : Forall token_pair (placeholders_from i n).
Proof.
  revert i. induction n as [|n IH]; intros i; simpl; constructor; [|apply IH].
  unfold token_pair, index_string. cbn [fst snd]. push_append. simpl.
  by rewrite plain_digits.
Qed.

Lemma placeholders_tokens (n : nat) : Forall token_pair (placeholders n).
Proof.
  unfold placeholders. apply Forall_app. split; [apply placeholders_from_tokens|].
  constructor; [|constructor]. by unfold token_pair.
Qed.

(** The store reads the expression of [n] fields as its placeholder pairs. *)
Lemma parse_expression_template (n : nat) :
  parse_update_expression (expression_template n) = Some (placeholders n).
Proof.
  apply parse_render; [|apply placeholders_tokens].
  unfold placeholders. by destruct (placeholders_from 0 n).
Qed.

(* ===================================================================== *)
(** ** What the table does with an update *)
(* ===================================================================== *)

Lemma lookup_name_entries (l : list string) :
  forall (o i : nat) (k : string) (tl : props),
    l !! i = Some k ->
    lookup_prop ("#k" +:+ index_string (o + i)) (name_entries_from o l ++ tl) = VStr k.
Proof.
  induction l as [|k0 l IH]; intros o i k tl Hi; [done|].
  cbn [name_entries_from app lookup_prop].
  destruct i as [|i].
  - injection Hi as ->. by rewrite Nat.add_0_r, String.eqb_refl.
  - destruct (String.eqb_spec ("#k" +:+ index_string o) ("#k" +:+ index_string (o + S i)))
      as [Heq|_].
    + apply name_key_inj in Heq. lia.
    + rewrite Nat.add_succ_r. apply (IH (S o) i). exact Hi.
Qed.

(** Resolving the placeholder pairs of the keys [l] against attribute
    names that map [#k<o+i>] to [l_i]: the attributes assigned are the
    keys of [l], in order. *)
Lemma resolve_placeholders (N V : value) (tl : list (string * string)) (l : list string) :
  forall (o : nat) (asg : list (string * value)),
    (forall i k, l !! i = Some k -> get N ("#k" +:+ index_string (o + i)) = VStr k) ->
    resolve_clauses N V (placeholders_from o (length l) ++ tl) = Some asg ->
    exists asg1 asg2,
      asg = asg1 ++ asg2 /\ asg1.*1 = l /\ resolve_clauses N V tl = Some asg2.
Proof.
  induction l as [|k l IH]; intros o asg HN Hres.
  - exists [], asg. by simpl in *.
  - cbn [length placeholders_from app resolve_clauses] in Hres.
    assert (resolve_path N ("#k" +:+ index_string o) = Some k) as Hp.
    { rewrite !append_cons, append_nil. cbn [resolve_path].
      change (String "#"%char (String "k"%char (index_string o)))
        with ("#k" +:+ index_string o).
      specialize (HN 0 k eq_refl). rewrite Nat.add_0_r in HN. by rewrite HN. }
    rewrite Hp in Hres.
    destruct (resolve_operand V (":v" +:+ index_string o)) as [v|]; [|done].
    destruct (resolve_clauses N V (placeholders_from (S o) (length l) ++ tl))
      as [rest|] eqn:Hrest; [|done].
    injection Hres as <-.
    destruct (IH (S o) rest) as (asg1 & asg2 & -> & Hfst & Htl); [|done|].
    { intros i k' Hi. specialize (HN (S i) k' Hi). by rewrite Nat.add_succ_r in HN. }
    exists ((k, v) :: asg1), asg2. by rewrite fmap_cons, Hfst.
Qed.

(** The attributes an update built by [build_update] assigns, when the
    table accepts it: the allowed keys and [updatedAt]. *)
Lemma assigned_attributes (b : value) (l : list string) (now : string)
    (asg : list (string * value)) :
  let u := build_update b l now in
  resolve_clauses (VObj (names u)) (VObj (values u)) (placeholders (length l)) = Some asg ->
  asg.*1 = l ++ ["updatedAt"].
Proof.
  intros u. subst u. rewrite build_update_entries. cbn [names values].
  unfold placeholders. intros Hres.
  apply resolve_placeholders with (l := l) in Hres as (asg1 & asg2 & -> & Hfst & Htl).
  - rewrite fmap_app, Hfst. f_equal.
    cbn [resolve_clauses updatedAt_placeholders resolve_path resolve_operand] in Htl.
    unfold get in Htl. cbn [own_props] in Htl.
    rewrite lookup_append_prop in Htl by apply name_entries_no_updatedAt.
    rewrite String.eqb_refl in Htl.
    destruct (lookup_prop ":updatedNow" _); by simplify_eq.
  - intros i k Hi. unfold get. cbn [own_props]. by apply lookup_name_entries.
Qed.


(** An update leaves an attribute of a stored item as it is, unless the
    attribute is among those its expression assigns. *)
Lemma mem_update_frame (i : update_input) (t : table) (id : string) (item : value) :
  tbl_items t !! id = Some item ->
  exists item',
    tbl_items (mem_update i t).2 !! id = Some item' /\
    forall k,
      (forall pairs asg,
         parse_update_expression (upd_UpdateExpression i) = Some pairs ->
         resolve_clauses (upd_ExpressionAttributeNames i)
                         (upd_ExpressionAttributeValues i) pairs = Some asg ->
         k ∉ asg.*1) ->
      get item' k = get item k.
Proof.
  intros Hitem. unfold mem_update.
  destruct (negb (same_table t (upd_TableName i))); [by exists item|].
  destruct (key_of (upd_Key i)) as [pk|]; [|by exists item].
  destruct (parse_update_expression (upd_UpdateExpression i)) as [pairs|];
    [|by exists item].
  destruct (resolve_clauses _ _ pairs) as [asg|] eqn:Hres; [|by exists item].
  destruct (negb (bool_decide (NoDup asg.*1))); [by exists item|].
  destruct (includes asg.*1 "pk"); [by exists item|].
  destruct (check_condition _ _) as [[|]|]; try by exists item.
  cbn [snd with_items tbl_items].
  destruct (decide (pk = id)) as [->|Hne].
  - rewrite lookup_insert_eq, Hitem. eexists; split; [done|].
    intros k Hk. unfold get. cbn [own_props].
    apply lookup_assign_other. by apply (Hk pairs asg).
  - rewrite lookup_insert_ne by done. by exists item.
Qed.

(* ===================================================================== *)
(** ** The handlers, path by path *)
(* ===================================================================== *)

Section HandlerPaths.

Context `{Runtime}.

Lemma parse_body_cases (ev : event) :
  (exists e, parse_body ev = throw e) \/ (exists b, parse_body ev = ret b).
Proof.
  unfold parse_body. destruct (ev_body ev) as [s|]; [|right; by eexists].
  destruct (String.eqb s ""); [right; by eexists|].
  destruct (JSON_parse s) as [e|b]; [left|right]; by eexists.
Qed.

Lemma createItem_paths (ev : event) (rid now1 now2 : string) :
  createItem_path ev rid now1 now2 (createItem ev rid now1 now2).
Proof.
  unfold createItem.
  destruct (parse_body_cases ev) as [[e He]|[b Hb]].
  - rewrite He. by apply create_parse_error.
  - rewrite Hb. unfold try_catch, prog_map, bind, ret. cbn [prog_bind].
    destruct (not_an_object b) eqn:Hobj; [by eapply create_invalid_body|].
    destruct (to_boolean (get b "name")) eqn:Hname; cbn [negb prog_bind].
    + by eapply create_store_call.
    + by eapply create_missing_name.
Qed.

Lemma updateItem_paths (ev : event) (now : string) :
  updateItem_path ev now (updateItem ev now).
Proof.
  unfold updateItem.
  destruct (to_boolean (path_id ev)) eqn:Hid; cbn [negb];
    [|by apply update_missing_id].
  destruct (parse_body_cases ev) as [[e He]|[b Hb]].
  - rewrite He. by apply update_parse_error.
  - rewrite Hb. unfold try_catch, prog_map, bind, ret. cbn [prog_bind].
    destruct (not_an_object b) eqn:Hobj; [by eapply update_invalid_body|].
    destruct (allowed_keys b) as [|k0 l] eqn:Hall; cbn [length Nat.eqb prog_bind].
    + by eapply update_no_fields.
    + rewrite <- Hall. eapply update_store_call; try done. by rewrite Hall.
Qed.

End HandlerPaths.

(* ===================================================================== *)
(** ** The reserved keys *)
(* ===================================================================== *)

Lemma allowed_not_reserved (b : value) (k : string) :
  k ∈ allowed_keys b -> k <> "pk" /\ k <> "createdAt".
Proof.
  unfold allowed_keys. rewrite list_elem_of_In, filter_In.
  intros [_ Hk]. apply negb_true_iff in Hk. unfold includes in Hk. simpl in Hk.
  apply orb_false_iff in Hk as [Hpk [Hc _]%orb_false_iff].
  by apply String.eqb_neq in Hpk, Hc.
Qed.

Lemma lookup_prop_filter (P : string -> bool) (k : string) (ps : props) :
  P k = true ->
  lookup_prop k (List.filter (fun kv => P kv.1) ps) = lookup_prop k ps.
Proof.
  intros Hk. induction ps as [|[k0 v0] ps IH]; [done|].
  cbn [List.filter fst lookup_prop].
  destruct (P k0) eqn:Hk0; cbn [lookup_prop]; rewrite IH; [done|].
  destruct (String.eqb_spec k0 k) as [->|]; [congruence|done].
Qed.

Lemma filter_keys_filter (P : string -> bool) (ps : props) :
  List.filter P (List.filter (fun kv => P kv.1) ps).*1 = List.filter P ps.*1.
Proof.
  induction ps as [|[k0 v0] ps IH]; [done|].
  cbn [List.filter fst fmap list_fmap].
  destruct (P k0) eqn:Hk0; [|done].
  cbn [fmap list_fmap List.filter fst]. rewrite Hk0. by f_equal.
Qed.

Lemma allowed_keys_drop_reserved (b : value) :
  allowed_keys (drop_reserved b) = allowed_keys b.
Proof.
  unfold allowed_keys, drop_reserved, Object_keys. cbn [own_props].
  apply (filter_keys_filter (fun k => negb (includes ["pk"; "createdAt"] k))).
Qed.

Lemma value_entries_drop_reserved (b : value) (l : list string) :
  forall o,
    Forall (fun k => includes ["pk"; "createdAt"] k = false) l ->
    value_entries_from (drop_reserved b) o l = value_entries_from b o l.
Proof.
  induction l as [|k l IH]; intros o Hl; [done|].
  inversion Hl as [|? ? Hk Hl']; subst.
  cbn [value_entries_from]. rewrite (IH _ Hl'). do 2 f_equal.
  unfold get, drop_reserved. cbn [own_props].
  apply (lookup_prop_filter (fun k => negb (includes ["pk"; "createdAt"] k))).
  by rewrite Hk.
Qed.

(** The update built from a body is the update built from the body
    without [pk] and [createdAt]. *)
Lemma build_update_drop_reserved (b : value) (now : string) :
  build_update (drop_reserved b) (allowed_keys (drop_reserved b)) now =
  build_update b (allowed_keys b) now.
Proof.
  rewrite allowed_keys_drop_reserved, !build_update_entries.
  rewrite value_entries_drop_reserved; [done|].
  unfold allowed_keys. apply Forall_forall. intros k.
  rewrite list_elem_of_In, filter_In. intros [_ Hk].
  by apply negb_true_iff in Hk.
Qed.

Lemma expression_of_build_update `{Runtime} (id : value) (b : value) (l : list string)
    (now : string) :
  upd_UpdateExpression (update_params id (build_update b l now)) =
    expression_template (length l).
Proof. by rewrite build_update_entries. Qed.

(** The table never assigns [pk] or [createdAt] on behalf of
    [updateItem]. *)
Lemma update_assigns_no_reserved `{Runtime} (id b : value) (now k : string)
    (pairs : list (string * string)) (asg : list (string * value)) :
  let i := update_params id (build_update b (allowed_keys b) now) in
  k = "pk" \/ k = "createdAt" ->
  parse_update_expression (upd_UpdateExpression i) = Some pairs ->
  resolve_clauses (upd_ExpressionAttributeNames i)
                  (upd_ExpressionAttributeValues i) pairs = Some asg ->
  k ∉ asg.*1.
Proof.
  intros i Hk. subst i. rewrite expression_of_build_update, parse_expression_template.
  intros Hp Hres. injection Hp as <-. cbn [update_params upd_ExpressionAttributeNames
    upd_ExpressionAttributeValues] in Hres.
  apply assigned_attributes in Hres. rewrite Hres.
  rewrite elem_of_app, list_elem_of_singleton.
  intros [Hin | ->].
  - destruct (allowed_not_reserved _ _ Hin) as [Hpk Hc]. destruct Hk; congruence.
  - by destruct Hk.
Qed.

(* ===================================================================== *)
(** ** Update and delete *)
(* ===================================================================== *)

Section UpdateDelete.

Context `{Runtime}.

Lemma run_ret {St R : Type} (ddb : store St) (p : prog R) (s : St) :
  no_store_call p -> (run ddb p s).2 = s.
Proof. by destruct p. Qed.

(** C2.  An update addressed to a stored item leaves the item's [pk] and
    [createdAt] as they were, whatever the body says: the update the
    handler builds is the one it builds for the body without these two
    keys, so a request carrying them is answered as the same request
    without them. *)
Theorem update_keeps_pk_and_createdAt
    (ev : event) (now : string) (t : table) (id : string) (item : value) :
  path_id ev = VStr id ->
  tbl_items t !! id = Some item ->
  (exists item',
     tbl_items (run mem_ddb (updateItem ev now) t).2 !! id = Some item' /\
     get item' "pk" = get item "pk" /\
     get item' "createdAt" = get item "createdAt") /\
  (forall b, parse_body ev = ret b ->
     ("pk" ∉ allowed_keys b) /\ ("createdAt" ∉ allowed_keys b)) /\
  (forall ev' b,
     path_id ev' = VStr id ->
     parse_body ev = ret b -> not_an_object b = false ->
     parse_body ev' = ret (drop_reserved b) ->
     updateItem ev now = updateItem ev' now).
Proof.
  intros Hid Hitem. split; [|split].
  - destruct (updateItem_paths ev now)
      as [?|e ? ?|b ? ? ?|b ? ? ? ?|b k ? Hb Hobj Hall Hok Hko];
      try (rewrite run_ret by done; by exists item).
    cbn [run mem_ddb].
    destruct (mem_update_frame
                (update_params (path_id ev) (build_update b (allowed_keys b) now))
                t id item Hitem) as (item' & Hlook & Hframe).
    destruct (mem_update _ t) as [o t'] eqn:Hupd. cbn [snd] in Hlook.
    assert ((run mem_ddb (k o) t').2 = t') as ->.
    { destruct o as [out|e]; [rewrite Hok|rewrite Hko]; done. }
    exists item'. split; [done|].
    split; apply Hframe; intros pairs asg;
      apply update_assigns_no_reserved; auto.
  - intros b _. split; intros Hin; by apply allowed_not_reserved in Hin as [? ?].
  - intros ev' b Hid' Hb Hobj Hb'. unfold updateItem.
    rewrite Hid, Hid', Hb, Hb'.
    unfold try_catch, prog_map, bind, ret. cbn [prog_bind].
    rewrite Hobj. change (not_an_object (drop_reserved b)) with false. cbv iota.
    by rewrite build_update_drop_reserved, allowed_keys_drop_reserved.
Qed.

(** C3.  An update whose body is absent or an object, and has no key
    besides [pk] and [createdAt], is answered 400 without any store
    call - with the message [No updatable fields] when the request has
    its path identifier ([Missing id] being the answer of the guard of
    line 81, which comes first) - although the update that lines 102-104
    would complete already has its [updatedAt] clause. *)
Theorem update_without_fields_is_rejected
    (ev : event) (now : string) (b : value) :
  parse_body ev = ret b ->
  not_an_object b = false ->
  allowed_keys b = [] ->
  (exists msg,
     updateItem ev now = Ret (res 400 (failure msg)) /\
     (to_boolean (path_id ev) = true -> msg = "No updatable fields") /\
     (forall (St : Type) (ddb : store St) (s : St),
        run ddb (updateItem ev now) s = (res 400 (failure msg), s))) /\
  no_store_call (updateItem ev now) /\
  sets (build_update b (allowed_keys b) now) = ["#updatedAt = :updatedNow"].
Proof.
  intros Hb Hobj Hall.
  assert (exists msg,
            updateItem ev now = Ret (res 400 (failure msg)) /\
            (to_boolean (path_id ev) = true -> msg = "No updatable fields"))
    as (msg & Heq & Hmsg).
  { unfold updateItem. destruct (to_boolean (path_id ev)); cbn [negb].
    - exists "No updatable fields". split; [|done]. rewrite Hb.
      unfold try_catch, prog_map, bind, ret. cbn [prog_bind].
      by rewrite Hobj, Hall.
    - by exists "Missing id". }
  rewrite Heq, Hall. split; [|done].
  exists msg. repeat split; done.
Qed.


(** The text of the update expression is the same for any two updates of
    as many fields. *)
Lemma expression_ignores_key_text (id id' b b' : value) (l l' : list string)
    (now now' : string) :
  length l = length l' ->
  upd_UpdateExpression (update_params id (build_update b l now)) =
  upd_UpdateExpression (update_params id' (build_update b' l' now')).
Proof. intros Hlen. by rewrite !expression_of_build_update, Hlen. Qed.

End UpdateDelete.

(** Updating an identifier the table does not hold is answered 404, and
    an update without a body 400, at the example requests. *)
Example update_absent_item_is_404 :
  run mem_ddb (@updateItem rt0 (request "FULL") "T1") (Table "items" ∅) =
    (@res rt0 404 (failure "The conditional request failed"), Table "items" ∅).
Proof. vm_compute. reflexivity. Qed.

Example update_absent_body_is_400 :
  @updateItem rt0 (Event None (Some [("id", "a1")])) "T1" =
    Ret (@res rt0 400 (failure "No updatable fields")).
Proof. reflexivity. Qed.

Example update_existing_item :
  run mem_ddb (@updateItem rt0 (request "FULL") "T1") table0 =
    (@res rt0 200
       (VObj [("ok", VBool true);
              ("item", VObj [("pk", VStr "a1"); ("name", VStr "widget");
                             ("createdAt", VStr "T0"); ("updatedAt", VStr "T1");
                             ("foo", VStr "bar")])]),
     Table "items"
       {[ "a1" := VObj [("pk", VStr "a1"); ("name", VStr "widget");
                        ("createdAt", VStr "T0"); ("updatedAt", VStr "T1");
                        ("foo", VStr "bar")] ]}).
Proof. vm_compute. reflexivity. Qed.

(* ===================================================================== *)
(** ** Field names and array bodies *)
(* ===================================================================== *)

Lemma index_string_not_word (i : nat) (s : string) :
  NilEmpty.uint_of_string s = None -> index_string i <> s.
Proof.
  intros Hs Heq. subst s. unfold index_string in Hs.
  by rewrite NilEmpty.usu in Hs.
Qed.

Lemma array_keys (l : list value) :
  Object_keys (VArr l) = index_string <$> seq 0 (length l).
Proof.
  unfold Object_keys. cbn [own_props]. rewrite fmap_imap.
  apply (imap_seq_0 l index_string).
Qed.

Lemma array_has_no_word (l : list value) (k : string) :
  NilEmpty.uint_of_string k = None -> get (VArr l) k = VUndefined.
Proof.
  intros Hk. unfold get.
  assert (k ∉ (own_props (VArr l)).*1) as Hnot.
  { change ((own_props (VArr l)).*1) with (Object_keys (VArr l)).
    rewrite array_keys. intros (i & -> & _)%list_elem_of_fmap.
    by apply (index_string_not_word i (index_string i)). }
  revert Hnot. generalize (own_props (VArr l)).
  induction p as [|[k0 v0] ps IH]; [done|].
  rewrite fmap_cons, not_elem_of_cons. cbn [fst lookup_prop]. intros [Hne Hps].
  destruct (String.eqb_spec k0 k); [congruence|by apply IH].
Qed.

Lemma filter_all {A : Type} (P : A -> bool) (l : list A) :
  Forall (fun x => P x = true) l -> List.filter P l = l.
Proof.
  induction 1 as [|x l Hx Hl IH]; [done|]. cbn [List.filter]. by rewrite Hx, IH.
Qed.

Lemma array_allowed_keys (l : list value) :
  allowed_keys (VArr l) = index_string <$> seq 0 (length l).
Proof.
  unfold allowed_keys. rewrite array_keys. apply filter_all.
  apply Forall_fmap, Forall_forall. intros i _. unfold compose, includes.
  cbn [existsb]. rewrite orb_false_r. apply negb_true_iff, orb_false_iff.
  split; apply String.eqb_neq; by apply index_string_not_word.
Qed.


(* ===================================================================== *)
(** ** Create *)
(* ===================================================================== *)

Lemma lookup_assign_present (k : string) (l : props) :
  forall ps,
    NoDup l.*1 -> has_prop k l = true ->
    lookup_prop k (assign_props ps l) = lookup_prop k l.
Proof.
  induction l as [|[k0 v0] l IH]; intros ps Hnd Hin; [done|].
  rewrite fmap_cons in Hnd. apply NoDup_cons in Hnd as [Hk0 Hnd].
  change (assign_props ps ((k0, v0) :: l)) with (assign_props (set_prop k0 v0 ps) l).
  cbn [lookup_prop has_prop] in *.
  destruct (String.eqb_spec k0 k) as [->|Hne].
  - rewrite lookup_assign_other by done. by rewrite lookup_set_prop, String.eqb_refl.
  - by apply IH.
Qed.

Lemma new_item_props (b : value) (rid now1 now2 : string) :
  new_item b rid now1 now2 =
    VObj (set_prop "updatedAt" (VStr now2)
            (set_prop "createdAt" (VStr now1)
               (assign_props
                  (set_prop "name" (get b "name") (set_prop "pk" (VStr rid) []))
                  (own_props b)))).
Proof. reflexivity. Qed.

Lemma new_item_createdAt (b : value) (rid now1 now2 : string) :
  get (new_item b rid now1 now2) "createdAt" = VStr now1.
Proof.
  rewrite new_item_props. unfold get. cbn [own_props].
  by rewrite !lookup_set_prop.
Qed.

Lemma new_item_updatedAt (b : value) (rid now1 now2 : string) :
  get (new_item b rid now1 now2) "updatedAt" = VStr now2.
Proof.
  rewrite new_item_props. unfold get. cbn [own_props].
  by rewrite !lookup_set_prop.
Qed.

Lemma new_item_pk (b : value) (rid now1 now2 : string) :
  get (new_item b rid now1 now2) "pk" =
    lookup_prop "pk"
      (assign_props (set_prop "name" (get b "name") (set_prop "pk" (VStr rid) []))
                    (own_props b)).
Proof.
  rewrite new_item_props. unfold get. cbn [own_props].
  by rewrite !lookup_set_prop.
Qed.

(** A successful insert stores the item under its key. *)
Lemma mem_put_stores (i : put_input) (t t' : table) (out : ddb_output) :
  mem_put i t = (Fulfilled out, t') ->
  exists pk, key_of (put_Item i) = Some pk /\ tbl_items t' !! pk = Some (put_Item i).
Proof.
  unfold mem_put.
  destruct (negb (same_table t (put_TableName i))); [discriminate|].
  destruct (key_of (put_Item i)) as [pk|]; [|discriminate].
  destruct (check_condition _ _) as [[|]|]; try discriminate.
  intros [= _ <-]. exists pk. split; [done|]. apply lookup_insert_eq.
Qed.

Section Create.

Context `{Runtime}.

(** C9.  A create request that passes validation writes and returns an
    item whose [createdAt] and [updatedAt] are the handler's own clock
    readings, whatever the body holds under these keys; the [pk] of the
    item is the generated identifier only when the body has no [pk] of
    its own, and the body's [pk] otherwise. *)
Theorem create_timestamps_are_server_values
    (ev : event) (rid now1 now2 : string) (b : value) :
  parse_body ev = ret b ->
  not_an_object b = false ->
  to_boolean (get b "name") = true ->
  let item := new_item b rid now1 now2 in
  (exists k,
     createItem ev rid now1 now2 =
       Await (Put {| put_TableName := TABLE_NAME;
                     put_Item := item;
                     put_ConditionExpression := Some "attribute_not_exists(pk)" |}) k /\
     forall out, k (Fulfilled out) =
       Ret (res 201 (object_literal [Field "ok" (VBool true); Field "item" item]))) /\
  (forall t, statusCode (run mem_ddb (createItem ev rid now1 now2) t).1 = 201%Z ->
     exists pk, key_of item = Some pk /\
       tbl_items (run mem_ddb (createItem ev rid now1 now2) t).2 !! pk = Some item) /\
  get item "createdAt" = VStr now1 /\
  get item "updatedAt" = VStr now2 /\
  (has_prop "pk" (own_props b) = false -> get item "pk" = VStr rid) /\
  (NoDup (Object_keys b) -> has_prop "pk" (own_props b) = true ->
   get item "pk" = get b "pk").
Proof.
  intros Hb Hobj Hname item.
  assert (exists k,
     createItem ev rid now1 now2 =
       Await (Put {| put_TableName := TABLE_NAME;
                     put_Item := item;
                     put_ConditionExpression := Some "attribute_not_exists(pk)" |}) k /\
     (forall out, k (Fulfilled out) =
       Ret (res 201 (object_literal [Field "ok" (VBool true); Field "item" item]))) /\
     (forall e, k (Rejected e) = Ret (res 500 (failure (err_message e)))))
    as (k & Hcall & Hok & Hko).
  { destruct (createItem_paths ev rid now1 now2)
      as [e He|b' Hb' Hobj'|b' Hb' Hobj' Hname'|b' k Hb' Hobj' Hname' Hok Hko];
      rewrite Hb in *; try discriminate; injection Hb' as <-; try congruence.
    by exists k. }
  split; [by exists k|]. split; [|split; [|split; [|split]]].
  - intros t. rewrite Hcall. cbn [run mem_ddb].
    destruct (mem_put _ t) as [[out|e] t'] eqn:Hput.
    + rewrite Hok. cbn [run fst snd]. intros _.
      by apply mem_put_stores in Hput.
    + rewrite Hko. cbn [run fst snd res statusCode]. discriminate.
  - apply new_item_createdAt.
  - apply new_item_updatedAt.
  - intros Hpk. subst item. rewrite new_item_pk.
    rewrite lookup_assign_other by (by rewrite <- has_prop_elem, Hpk).
    by rewrite !lookup_set_prop.
  - intros Hnd Hpk. subst item. rewrite new_item_pk.
    by apply lookup_assign_present.
Qed.

(** C5, as the handler has it.  An absent (or empty) body stands for the
    empty object, so the request fails the [name] check: 400 with the
    message [Field "name" is required].  The message [Invalid JSON body]
    is the answer to a body that parses to something other than a
    non-null object. *)
Theorem create_without_body_misses_name
    (ev : event) (rid now1 now2 : string) :
  (ev_body ev = None \/ ev_body ev = Some "" ->
   createItem ev rid now1 now2 = Ret (res 400 (failure NAME_REQUIRED))) /\
  (forall s b,
     ev_body ev = Some s -> s <> "" -> JSON_parse s = inr b ->
     not_an_object b = true ->
     createItem ev rid now1 now2 = Ret (res 400 (failure INVALID_JSON_BODY))) /\
  NAME_REQUIRED <> INVALID_JSON_BODY.
Proof.
  split; [|split; [|done]].
  - intros Hbody. unfold createItem, parse_body.
    by destruct Hbody as [-> | ->].
  - intros s b Hbody Hs Hparse Hobj. unfold createItem, parse_body.
    apply String.eqb_neq in Hs. rewrite Hbody, Hs, Hparse.
    unfold try_catch, prog_map, bind, lift. cbn [prog_bind]. by rewrite Hobj.
Qed.

End Create.

(* ===================================================================== *)
(** ** Responses *)
(* ===================================================================== *)

Lemma always_run {St R : Type} (P : R -> Prop) (ddb : store St) (p : prog R) :
  always P p -> forall s, P (run ddb p s).1.
Proof.
  induction p as [r|c k IH]; intros Hp s; [done|].
  cbn [run]. destruct (ddb c s) as [o s']. by apply IH.
Qed.

Section Responses.

Context `{Runtime}.

Lemma uniform_failure (code : Z) (msg : string) : uniform (res code (failure msg)).
Proof. split; [done|]. intros _. by exists msg. Qed.

Lemma uniform_success (code : Z) (data : value) :
  (code < 400)%Z -> uniform (res code data).
Proof. intros Hlt. split; [done|]. unfold error_shaped. cbn [res statusCode]. lia. Qed.

Lemma uniform_fault (e : js_error) : uniform (not_found_or_fault e).
Proof. apply uniform_failure. Qed.

Lemma createItem_uniform (ev : event) (rid now1 now2 : string) :
  always uniform (createItem ev rid now1 now2).
Proof.
  destruct (createItem_paths ev rid now1 now2)
    as [e He|b Hb Hobj|b Hb Hobj Hname|b k Hb Hobj Hname Hok Hko];
    try apply uniform_failure.
  intros [out|e]; [rewrite Hok|rewrite Hko].
  - by apply uniform_success.
  - apply uniform_failure.
Qed.

Lemma updateItem_uniform (ev : event) (now : string) :
  always uniform (updateItem ev now).
Proof.
  destruct (updateItem_paths ev now)
    as [?|e ? ?|b ? ? ?|b ? ? ? ?|b k ? Hb Hobj Hall Hok Hko];
    try apply uniform_failure.
  intros [out|e]; [rewrite Hok|rewrite Hko].
  - by apply uniform_success.
  - apply uniform_fault.
Qed.

Lemma getItem_uniform (ev : event) : always uniform (getItem ev).
Proof.
  unfold getItem. destruct (to_boolean (path_id ev)); cbn [negb];
    [|apply uniform_failure].
  intros [out|e]; unfold try_catch, prog_map, bind, await, ret, throw; cbn [prog_bind always].
  - destruct (to_boolean (out_Item out)); cbn [negb prog_bind always].
    + by apply uniform_success.
    + apply uniform_failure.
  - apply uniform_failure.
Qed.

Lemma deleteItem_uniform (ev : event) : always uniform (deleteItem ev).
Proof.
  unfold deleteItem. destruct (to_boolean (path_id ev)); cbn [negb];
    [|apply uniform_failure].
  intros [out|e]; unfold try_catch, prog_map, bind, await, ret, throw; cbn [prog_bind always].
  - by apply uniform_success.
  - apply uniform_fault.
Qed.

Lemma listItems_uniform : always uniform listItems.
Proof.
  unfold listItems.
  intros [out|e]; unfold try_catch, prog_map, bind, await, ret, throw; cbn [prog_bind always].
  - by apply uniform_success.
  - apply uniform_failure.
Qed.

(** C6, as the code has it.  Whatever the store answers, every response
    of the five item routes carries the fixed headers, and has the body
    [{ ok: false, error: <message> }] when its status is a failure; the
    connectivity check answers without any headers, its failure body
    having the same shape. *)
Theorem item_routes_respond_uniformly
    (ev : event) (rid now1 now2 now : string) (ts : float) :
  always uniform (createItem ev rid now1 now2) /\
  always uniform (getItem ev) /\
  always uniform (updateItem ev now) /\
  always uniform (deleteItem ev) /\
  always uniform listItems /\
  always (fun r => headers r.2 = None /\ error_shaped r.2) (hello ts).
Proof.
  split; [apply createItem_uniform|].
  split; [apply getItem_uniform|].
  split; [apply updateItem_uniform|].
  split; [apply deleteItem_uniform|].
  split; [apply listItems_uniform|].
  unfold hello.
  intros [out|e]; unfold try_catch, prog_map, bind, await, ret, throw;
    cbn [prog_bind always snd headers]; (split; [done|]).
  - unfold error_shaped. cbn [statusCode]. lia.
  - intros _. by exists (err_message e).
Qed.

End Responses.

(* ===================================================================== *)
(** ** The handlers at concrete requests *)
(* ===================================================================== *)

(** C1.  A create request whose body has its own [pk]: the item written
    to the table and returned with status 201 carries the body's [pk],
    and nothing is stored under the generated identifier. *)
Theorem create_takes_pk_from_body :
  let rt := example_runtime [("B", VObj [("name", VStr "widget"); ("pk", VStr "mine")])] in
  let item := VObj [("pk", VStr "mine"); ("name", VStr "widget");
                    ("createdAt", VStr "T"); ("updatedAt", VStr "T")] in
  let result := run mem_ddb (@createItem rt (Event (Some "B") None) "generated" "T" "T")
                    (Table "items" ∅) in
  result.1 = @res rt 201 (VObj [("ok", VBool true); ("item", item)]) /\
  tbl_items result.2 !! "mine" = Some item /\
  tbl_items result.2 !! "generated" = None /\
  get item "pk" <> VStr "generated".
Proof. vm_compute. repeat split; discriminate. Qed.

(** C7.  A create request during which the clock moves between the two
    readings of lines 46 and 47: the item written and returned has a
    [createdAt] that differs from its [updatedAt]. *)
Theorem create_reads_the_clock_twice :
  let rt := example_runtime [("B", VObj [("name", VStr "widget")])] in
  let item := VObj [("pk", VStr "generated"); ("name", VStr "widget");
                    ("createdAt", VStr "2024-05-01T10:00:00.999Z");
                    ("updatedAt", VStr "2024-05-01T10:00:01.000Z")] in
  let result := run mem_ddb
                    (@createItem rt (Event (Some "B") None) "generated"
                       "2024-05-01T10:00:00.999Z" "2024-05-01T10:00:01.000Z")
                    (Table "items" ∅) in
  result.1 = @res rt 201 (VObj [("ok", VBool true); ("item", item)]) /\
  tbl_items result.2 !! "generated" = Some item /\
  get item "createdAt" <> get item "updatedAt".
Proof. vm_compute. repeat split; discriminate. Qed.

(** Against C5 as stated: without a body the answer is the missing-name
    failure, not [Invalid JSON body]. *)
Lemma absent_body_is_not_invalid_input :
  let rt := example_runtime [] in
  @createItem rt (Event None None) "generated" "T" "T" =
    Ret (@res rt 400 (failure NAME_REQUIRED)) /\
  @createItem rt (Event None None) "generated" "T" "T" <>
    Ret (@res rt 400 (failure INVALID_JSON_BODY)).
Proof. split; [reflexivity|]. vm_compute. discriminate. Qed.

(** Against C6 as stated: the successful answer of the connectivity
    check has no headers. *)
Lemma hello_sends_no_headers :
  let rt := example_runtime [] in
  let r := (run mem_ddb (@hello rt 0%float) (Table "items" ∅)).1.2 in
  statusCode r = 200%Z /\ headers r = None /\ headers r <> Some cors_headers.
Proof. vm_compute. repeat split; discriminate. Qed.

(* ===================================================================== *)
(** ** The theorems at the example requests *)
(* ===================================================================== *)

Lemma update_keeps_pk_and_createdAt_witness :
  path_id (request "FULL") = VStr "a1" /\
  tbl_items table0 !! "a1" = Some stored_a1 /\
  exists item',
    tbl_items (run mem_ddb (@updateItem rt0 (request "FULL") "T1") table0).2 !! "a1"
      = Some item' /\
    get item' "pk" = get stored_a1 "pk" /\
    get item' "createdAt" = get stored_a1 "createdAt".
Proof.
  split; [reflexivity|]. split; [vm_compute; reflexivity|].
  apply (@update_keeps_pk_and_createdAt rt0 (request "FULL") "T1" table0 "a1" stored_a1).
  - reflexivity.
  - vm_compute; reflexivity.
Defined.

Lemma update_without_fields_is_rejected_witness :
  @parse_body rt0 (request "RESERVED") =
    ret (VObj [("pk", VStr "x"); ("createdAt", VStr "y")]) /\
  no_store_call (@updateItem rt0 (request "RESERVED") "T1").
Proof.
  split; [reflexivity|].
  apply (@update_without_fields_is_rejected rt0 (request "RESERVED") "T1"
           (VObj [("pk", VStr "x"); ("createdAt", VStr "y")]));
    reflexivity.
Defined.

Example update_with_reserved_keys_only :
  @updateItem rt0 (request "RESERVED") "T1" =
    Ret (@res rt0 400 (failure "No updatable fields")).
Proof. reflexivity. Qed.

Lemma create_timestamps_are_server_values_witness :
  @parse_body rt0 (request "WIDGET") =
    ret (VObj [("name", VStr "widget"); ("createdAt", VStr "1999")]) /\
  get (new_item (VObj [("name", VStr "widget"); ("createdAt", VStr "1999")])
         "generated" "T1" "T2") "createdAt" = VStr "T1".
Proof.
  split; [reflexivity|].
  apply (@create_timestamps_are_server_values rt0 (request "WIDGET")
           "generated" "T1" "T2"
           (VObj [("name", VStr "widget"); ("createdAt", VStr "1999")]));
    reflexivity.
Defined.

Lemma create_without_body_misses_name_witness :
  @createItem rt0 (Event None None) "generated" "T1" "T2" =
    Ret (@res rt0 400 (failure NAME_REQUIRED)).
Proof.
  apply (proj1 (@create_without_body_misses_name rt0 (Event None None)
                  "generated" "T1" "T2")).
  left; reflexivity.
Defined.

(* ===================================================================== *)
(** ** Validation, faults and status codes of all routes *)
(* ===================================================================== *)

Section Routes.

Context `{Runtime}.

Lemma getItem_call (ev : event) :
  to_boolean (path_id ev) = true ->
  exists k,
    getItem ev = Await (Get {| get_TableName := TABLE_NAME;
                               get_Key := object_literal [Field "pk" (path_id ev)] |}) k /\
    (forall out, k (Fulfilled out) =
       Ret (if to_boolean (out_Item out)
            then res 200 (object_literal [Field "ok" (VBool true);
                                          Field "item" (out_Item out)])
            else res 404 (failure "Not found"))) /\
    (forall e, k (Rejected e) = Ret (res 500 (failure (err_message e)))).
Proof.
  intros Hid. unfold getItem. rewrite Hid. cbn [negb].
  eexists. split; [reflexivity|]. split; [|done].
  intros out. unfold try_catch, prog_map, bind, ret. cbn [prog_bind].
  by destruct (to_boolean (out_Item out)).
Qed.

Lemma deleteItem_call (ev : event) :
  to_boolean (path_id ev) = true ->
  exists k,
    deleteItem ev =
      Await (Delete {| del_TableName := TABLE_NAME;
                       del_Key := object_literal [Field "pk" (path_id ev)];
                       del_ConditionExpression := "attribute_exists(pk)" |}) k /\
    (forall out, k (Fulfilled out) =
       Ret (res 204 (object_literal [Field "ok" (VBool true)]))) /\
    (forall e, k (Rejected e) = Ret (not_found_or_fault e)).
Proof.
  intros Hid. unfold deleteItem. rewrite Hid. cbn [negb].
  eexists. split; [reflexivity|]. by split.
Qed.

(** X1.  Without a usable path identifier - no path parameters, no [id]
    among them, or an empty [id] - the three routes addressed to one item
    answer 400 [Missing id] and do not call the store; [updateItem] does
    not even look at the body. *)
Theorem missing_id_is_rejected (ev : event) (now : string) :
  path_id ev = VUndefined \/ path_id ev = VStr "" ->
  getItem ev = Ret (res 400 (failure "Missing id")) /\
  updateItem ev now = Ret (res 400 (failure "Missing id")) /\
  deleteItem ev = Ret (res 400 (failure "Missing id")) /\
  (forall ev', ev_pathParameters ev' = ev_pathParameters ev ->
     updateItem ev' now = Ret (res 400 (failure "Missing id"))).
Proof.
  intros Hid.
  assert (to_boolean (path_id ev) = false) as Hfalse by (by destruct Hid as [-> | ->]).
  repeat split.
  - unfold getItem. by rewrite Hfalse.
  - unfold updateItem. by rewrite Hfalse.
  - unfold deleteItem. by rewrite Hfalse.
  - intros ev' Hsame. unfold updateItem, path_id in *. rewrite Hsame.
    by rewrite Hfalse.
Qed.

(** X2.  [createItem], [getItem] and [listItems] answer every rejection
    of their store call with 500 and the fault's message; a failed
    condition (the conditional insert of [createItem] meeting an existing
    [pk]) is no exception. *)
Theorem other_routes_answer_faults_with_500
    (ev : event) (rid now1 now2 : string) (c : ddb_call)
    (k : promise_result -> prog response) (e : js_error) :
  createItem ev rid now1 now2 = Await c k \/ getItem ev = Await c k \/
  listItems = Await c k ->
  k (Rejected e) = Ret (res 500 (failure (err_message e))).
Proof.
  intros [Hc|[Hg|Hl]].
  - destruct (createItem_paths ev rid now1 now2)
      as [?|? ? ?|? ? ? ?|b k' Hb Hobj Hname Hok Hko]; try discriminate.
    injection Hc as _ <-. apply Hko.
  - unfold getItem in Hg. destruct (to_boolean (path_id ev)); [|discriminate].
    cbn [negb] in Hg. unfold try_catch, prog_map, bind, await in Hg.
    cbn [prog_bind] in Hg. by injection Hg as _ <-.
  - unfold listItems, try_catch, prog_map, bind, await in Hl.
    cbn [prog_bind] in Hl. by injection Hl as _ <-.
Qed.

(** X3.  The status codes of each route, whatever the request and
    whatever the store answers: 201, 400 or 500 for create; 200, 400, 404
    or 500 for get and update; 204, 400, 404 or 500 for delete; 200 or
    500 for list and for the connectivity check. *)
Theorem status_codes_of_the_routes
    (ev : event) (rid now1 now2 now : string) (ts : float) :
  always (fun r => statusCode r ∈ [201; 400; 500]%Z) (createItem ev rid now1 now2) /\
  always (fun r => statusCode r ∈ [200; 400; 404; 500]%Z) (getItem ev) /\
  always (fun r => statusCode r ∈ [200; 400; 404; 500]%Z) (updateItem ev now) /\
  always (fun r => statusCode r ∈ [204; 400; 404; 500]%Z) (deleteItem ev) /\
  always (fun r => statusCode r ∈ [200; 500]%Z) listItems /\
  always (fun r => statusCode r.2 ∈ [200; 500]%Z) (hello ts).
Proof.
  assert (forall e (l : list Z),
            404%Z ∈ l -> 500%Z ∈ l -> statusCode (not_found_or_fault e) ∈ l)
    as Hfault.
  { intros e l H404 H500. unfold not_found_or_fault.
    by destruct (code_is e CONDITIONAL_CHECK_FAILED). }
  split; [|split; [|split; [|split; [|split]]]].
  - destruct (createItem_paths ev rid now1 now2)
      as [?|? ? ?|? ? ? ?|b k Hb Hobj Hname Hok Hko];
      cbn [always res statusCode]; try set_solver.
    intros [out|e]; [rewrite Hok|rewrite Hko]; cbn [always res statusCode]; set_solver.
  - destruct (to_boolean (path_id ev)) eqn:Hid.
    + destruct (getItem_call ev Hid) as (k & -> & Hok & Hko).
      intros [out|e]; [rewrite Hok|rewrite Hko]; cbn [always];
        [destruct (to_boolean (out_Item out))|]; cbn [res statusCode]; set_solver.
    + unfold getItem. rewrite Hid. cbn [always res statusCode]. set_solver.
  - destruct (updateItem_paths ev now)
      as [?|? ? ?|? ? ? ?|? ? ? ? ?|b k ? Hb Hobj Hall Hok Hko];
      cbn [always]; try (cbn [res statusCode]; set_solver);
      try (apply Hfault; set_solver).
    intros [out|e]; [rewrite Hok|rewrite Hko]; cbn [always];
      [cbn [res statusCode]; set_solver|apply Hfault; set_solver].
  - destruct (to_boolean (path_id ev)) eqn:Hid.
    + destruct (deleteItem_call ev Hid) as (k & -> & Hok & Hko).
      intros [out|e]; [rewrite Hok|rewrite Hko]; cbn [always];
        [cbn [res statusCode]; set_solver|apply Hfault; set_solver].
    + unfold deleteItem. rewrite Hid. cbn [always res statusCode]. set_solver.
  - unfold listItems. intros [out|e]; cbn [always res statusCode]; set_solver.
  - unfold hello. intros [out|e]; cbn [always snd statusCode]; set_solver.
Qed.

(** X4.  For a body that is absent or an object, [createItem] calls the
    store exactly when [body.name] is truthy: a missing [name], and the
    values [""], [0], [null] and [false], are answered 400 without a
    store call, while any other [name] - a string or not - is accepted. *)
Theorem create_requires_truthy_name
    (ev : event) (rid now1 now2 : string) (b : value) :
  parse_body ev = ret b ->
  not_an_object b = false ->
  (to_boolean (get b "name") = false ->
   createItem ev rid now1 now2 = Ret (res 400 (failure NAME_REQUIRED))) /\
  (to_boolean (get b "name") = true ->
   ~ no_store_call (createItem ev rid now1 now2)) /\
  (get b "name" ∈ [VUndefined; VStr ""; VNum 0; VNull; VBool false] ->
   to_boolean (get b "name") = false).
Proof.
  intros Hb Hobj.
  destruct (createItem_paths ev rid now1 now2)
    as [e He|b' Hb' Hobj'|b' Hb' Hobj' Hname|b' k Hb' Hobj' Hname Hok Hko];
    rewrite Hb in *; try discriminate; injection Hb' as <-; try congruence.
  - split; [done|]. split; [congruence|].
    intros Hin. by rewrite Hname.
  - split; [congruence|]. split; [by intros _ []|].
    rewrite !elem_of_cons, elem_of_nil.
    intros [Hn|[Hn|[Hn|[Hn|[Hn|[]]]]]]; rewrite Hn in Hname; discriminate.
Qed.

(** X5.  A body that [JSON.parse] rejects is answered 500 with the
    [SyntaxError]'s message by [createItem], and by [updateItem] when the
    request has its path identifier; a body that parses to anything but
    an object or an array is answered 400 [Invalid JSON body] by
    [updateItem].  Neither case reaches the store. *)
Theorem unusable_bodies
    (ev : event) (rid now1 now2 now s : string) :
  ev_body ev = Some s -> s <> "" ->
  (forall e, JSON_parse s = inl e ->
     createItem ev rid now1 now2 = Ret (res 500 (failure (err_message e))) /\
     (to_boolean (path_id ev) = true -> err_code e = None ->
      updateItem ev now = Ret (res 500 (failure (err_message e))))) /\
  (forall b, JSON_parse s = inr b -> to_boolean (path_id ev) = true ->
     (forall l, b <> VArr l) -> (forall ps, b <> VObj ps) ->
     updateItem ev now = Ret (res 400 (failure INVALID_JSON_BODY))).
Proof.
  intros Hbody Hs. apply String.eqb_neq in Hs.
  split.
  - intros e Hparse.
    assert (parse_body ev = throw e) as Hb.
    { unfold parse_body. by rewrite Hbody, Hs, Hparse. }
    split.
    + unfold createItem. by rewrite Hb.
    + intros Hid Hcode. unfold updateItem. rewrite Hid, Hb. cbn [negb].
      unfold try_catch, prog_map, bind, throw. cbn [prog_bind].
      unfold not_found_or_fault, code_is. by rewrite Hcode.
  - intros b Hparse Hid Harr Hobj.
    assert (parse_body ev = ret b) as Hb.
    { unfold parse_body. by rewrite Hbody, Hs, Hparse. }
    unfold updateItem. rewrite Hid, Hb. cbn [negb].
    unfold try_catch, prog_map, bind, ret. cbn [prog_bind].
    assert (not_an_object b = true) as ->; [|done].
    unfold not_an_object.
    destruct b as [| |[]|x|s'|l|ps]; cbn [typeof]; try done;
      try apply orb_true_r.
    + by destruct (Harr l).
    + by destruct (Hobj ps).
Qed.

End Routes.

(* ===================================================================== *)
(** ** The routes on the table *)
(* ===================================================================== *)

Lemma key_of_field (v : value) :
  key_of (object_literal [Field "pk" v]) =
    match v with
    | VStr s => if String.eqb s "" then None else Some s
    | _ => None
    end.
Proof. reflexivity. Qed.

Lemma key_of_nonempty (v : value) (pk : string) : key_of v = Some pk -> pk <> "".
Proof.
  unfold key_of. destruct (get v "pk") as [| | | |s| |]; try discriminate.
  destruct (String.eqb_spec s ""); [discriminate|]. by intros [= <-].
Qed.

Lemma same_table_with_items (t : table) (m : gmap string value) (name : value) :
  same_table (with_items t m) name = same_table t name.
Proof. reflexivity. Qed.

(** The two outcomes of an insert. *)
Lemma mem_put_outcomes (i : put_input) (t : table) :
  (exists e, mem_put i t = (Rejected e, t)) \/
  (exists pk,
     same_table t (put_TableName i) = true /\
     key_of (put_Item i) = Some pk /\
     (put_ConditionExpression i = Some "attribute_not_exists(pk)" ->
      tbl_items t !! pk = None) /\
     mem_put i t =
       (Fulfilled empty_output, with_items t (<[pk := put_Item i]> (tbl_items t)))).
Proof.
  unfold mem_put.
  destruct (same_table t (put_TableName i)); cbn [negb]; [|left; by eexists].
  destruct (key_of (put_Item i)) as [pk|]; [|left; by eexists].
  destruct (check_condition _ _) as [[|]|] eqn:Hcond; try (left; by eexists).
  right. exists pk. repeat split. intros Hc. rewrite Hc in Hcond.
  cbn in Hcond. unfold present in Hcond.
  by destruct (tbl_items t !! pk).
Qed.

Section OnTheTable.

Context `{Runtime}.

(** X6.  [createItem] never overwrites: either it answers something
    other than 201 and the table is as before, or it answers 201 and the
    table has gained exactly the new item, under a key that was free. *)
Theorem create_adds_one_item_or_nothing
    (ev : event) (rid now1 now2 : string) (t : table) :
  let r := run mem_ddb (createItem ev rid now1 now2) t in
  (statusCode r.1 <> 201%Z /\ r.2 = t) \/
  (statusCode r.1 = 201%Z /\
   exists b pk,
     parse_body ev = ret b /\
     key_of (new_item b rid now1 now2) = Some pk /\
     tbl_items t !! pk = None /\
     r.2 = with_items t (<[pk := new_item b rid now1 now2]> (tbl_items t))).
Proof.
  cbn zeta.
  destruct (createItem_paths ev rid now1 now2)
    as [?|? ? ?|? ? ? ?|b k Hb Hobj Hname Hok Hko]; try (left; by split).
  cbn [run mem_ddb].
  destruct (mem_put_outcomes
              {| put_TableName := TABLE_NAME;
                 put_Item := new_item b rid now1 now2;
                 put_ConditionExpression := Some "attribute_not_exists(pk)" |} t)
    as [[e ->]|(pk & _ & Hkey & Hfree & ->)].
  - rewrite Hko. left. by split.
  - rewrite Hok. right. split; [done|]. exists b, pk. repeat split; auto.
Qed.

(** X7.  Create, then get: when [createItem] has answered 201, a
    [getItem] for the key of the new item answers 200 with that item. *)
Theorem create_then_get
    (ev ev' : event) (rid now1 now2 : string) (t : table) (b : value) (pk : string) :
  let r := run mem_ddb (createItem ev rid now1 now2) t in
  parse_body ev = ret b ->
  statusCode r.1 = 201%Z ->
  key_of (new_item b rid now1 now2) = Some pk ->
  path_id ev' = VStr pk ->
  run mem_ddb (getItem ev') r.2 =
    (res 200 (object_literal [Field "ok" (VBool true);
                              Field "item" (new_item b rid now1 now2)]), r.2).
Proof.
  cbn zeta. intros Hb H201 Hkey Hid'.
  destruct (createItem_paths ev rid now1 now2)
    as [?|? ? ?|? ? ? ?|b' k Hb' Hobj Hname Hok Hko]; try discriminate.
  rewrite Hb in Hb'. injection Hb' as <-.
  cbn [run mem_ddb] in *.
  destruct (mem_put_outcomes
              {| put_TableName := TABLE_NAME;
                 put_Item := new_item b rid now1 now2;
                 put_ConditionExpression := Some "attribute_not_exists(pk)" |} t)
    as [[e Hput]|(pk' & Hname' & Hkey' & _ & Hput)]; rewrite Hput in *.
  - rewrite Hko in H201. discriminate.
  - rewrite Hok. cbn [run snd put_Item put_TableName] in *.
    rewrite Hkey in Hkey'. injection Hkey' as <-.
    assert (to_boolean (path_id ev') = true) as Hid.
    { rewrite Hid'. cbn. apply key_of_nonempty, String.eqb_neq in Hkey.
      by rewrite Hkey. }
    destruct (getItem_call ev' Hid) as (k' & -> & Hok' & _).
    cbn [run mem_ddb]. unfold mem_get. cbn [get_TableName get_Key].
    rewrite same_table_with_items, Hname'. cbn [negb].
    rewrite Hid', key_of_field.
    apply key_of_nonempty, String.eqb_neq in Hkey. rewrite Hkey.
    cbn [with_items tbl_items]. rewrite lookup_insert_eq, Hok'.
    cbn [out_Item run]. reflexivity.
Qed.

(** X8.  [getItem] answers from the table: 404 [Not found] for an
    identifier the table does not hold, 200 with the stored item for one
    it holds. *)
Theorem get_reads_the_table (ev : event) (id : string) (t : table) :
  path_id ev = VStr id -> id <> "" ->
  TABLE_NAME = VStr (tbl_name t) ->
  (tbl_items t !! id = None ->
   run mem_ddb (getItem ev) t = (res 404 (failure "Not found"), t)) /\
  (forall ps, tbl_items t !! id = Some (VObj ps) ->
   run mem_ddb (getItem ev) t =
     (res 200 (object_literal [Field "ok" (VBool true); Field "item" (VObj ps)]), t)).
Proof.
  intros Hid Hne Hname. apply String.eqb_neq in Hne.
  assert (to_boolean (path_id ev) = true) as Hid'.
  { rewrite Hid. cbn. by rewrite Hne. }
  destruct (getItem_call ev Hid') as (k & -> & Hok & _).
  cbn [run mem_ddb]. unfold mem_get. cbn [get_TableName get_Key].
  rewrite Hname. cbn [same_table]. rewrite String.eqb_refl. cbn [negb].
  rewrite Hid, key_of_field, Hne.
  split.
  - intros ->. by rewrite Hok.
  - intros ps ->. by rewrite Hok.
Qed.

(** X9.  [getItem] and [listItems] leave the table as it is, whatever
    the request. *)
Theorem reads_leave_the_table (ev : event) (t : table) :
  (run mem_ddb (getItem ev) t).2 = t /\ (run mem_ddb listItems t).2 = t.
Proof.
  split.
  - destruct (to_boolean (path_id ev)) eqn:Hid.
    + destruct (getItem_call ev Hid) as (k & -> & Hok & Hko).
      cbn [run mem_ddb]. unfold mem_get, no_such_table, invalid, fault.
      destruct (negb _); [by rewrite Hko|].
      destruct (key_of _); [by rewrite Hok|by rewrite Hko].
    + unfold getItem. by rewrite Hid.
  - unfold listItems, try_catch, prog_map, bind, await. cbn [prog_bind run mem_ddb].
    unfold mem_scan. by destruct (negb _).
Qed.

(** X10.  Delete: for an identifier the table holds, [deleteItem]
    answers 204 and removes that item and nothing else; the same request
    once more is answered 404, and so is a [getItem] for the identifier. *)
Theorem delete_removes_the_item (ev : event) (id : string) (t : table) (item : value) :
  path_id ev = VStr id -> id <> "" ->
  TABLE_NAME = VStr (tbl_name t) ->
  tbl_items t !! id = Some item ->
  let t' := with_items t (delete id (tbl_items t)) in
  run mem_ddb (deleteItem ev) t =
    (res 204 (object_literal [Field "ok" (VBool true)]), t') /\
  run mem_ddb (deleteItem ev) t' =
    (res 404 (failure "The conditional request failed"), t') /\
  run mem_ddb (getItem ev) t' = (res 404 (failure "Not found"), t').
Proof.
  intros Hid Hne Hname Hitem t'. apply String.eqb_neq in Hne as Hne'.
  assert (to_boolean (path_id ev) = true) as Hid'.
  { rewrite Hid. cbn. by rewrite Hne'. }
  assert (tbl_items t' !! id = None) as Hgone by apply lookup_delete_eq.
  subst t'.
  destruct (deleteItem_call ev Hid') as (k & Hdel & Hok & Hko).
  destruct (getItem_call ev Hid') as (k' & Hget & Hok' & _).
  rewrite Hdel, Hget. cbn [run mem_ddb].
  unfold mem_delete, mem_get.
  cbn [del_TableName del_Key del_ConditionExpression get_TableName get_Key].
  rewrite !same_table_with_items, Hname. cbn [same_table].
  rewrite String.eqb_refl. cbn [negb].
  rewrite Hid, key_of_field, Hne'. unfold present. rewrite Hitem, Hgone.
  cbn [check_condition String.eqb Ascii.eqb Bool.eqb]. unfold conflict, fault.
  by rewrite Hok, Hko, Hok'.
Qed.

(** X11.  The connectivity check overwrites: when the table is the one
    [TABLE_NAME] names, [hello] answers 200, logs nothing and leaves the
    item [{ pk: 'hello', ts }] under the key [hello], whatever was stored
    there, the other items being as before. *)
Theorem hello_overwrites (ts : float) (t : table) :
  TABLE_NAME = VStr (tbl_name t) ->
  let item := VObj [("pk", VStr "hello"); ("ts", VNum ts)] in
  run mem_ddb (hello ts) t =
    (([], {| statusCode := 200; headers := None;
             body := JSON_stringify (VObj [("ok", VBool true); ("saved", item)]) |}),
     with_items t (<["hello" := item]> (tbl_items t))).
Proof.
  intros Hname item. unfold hello, try_catch, prog_map, bind, await.
  cbn [prog_bind run mem_ddb]. unfold mem_put. cbn [put_TableName put_Item
    put_ConditionExpression].
  rewrite Hname. cbn [same_table]. rewrite String.eqb_refl. reflexivity.
Qed.

(** X12.  When its store call is rejected, [hello] answers 500 with the
    fault's message and passes exactly that fault to [console.error];
    when the call succeeds it logs nothing. *)
Theorem hello_logs_the_fault (ts : float) (c : ddb_call)
    (k : promise_result -> prog (list js_error * response)) :
  hello ts = Await c k ->
  c = Put {| put_TableName := TABLE_NAME;
             put_Item := VObj [("pk", VStr "hello"); ("ts", VNum ts)];
             put_ConditionExpression := None |} /\
  (forall e, k (Rejected e) =
     Ret ([e], {| statusCode := 500; headers := None;
                  body := JSON_stringify (failure (err_message e)) |})) /\
  (forall out, exists r, k (Fulfilled out) = Ret ([], r) /\ statusCode r = 200%Z).
Proof.
  unfold hello, try_catch, prog_map, bind, await. cbn [prog_bind].
  intros [= <- <-]. split; [done|]. split; [done|].
  intros out. by eexists.
Qed.

End OnTheTable.

(* ===================================================================== *)
(** ** Updates and listings on the table *)
(* ===================================================================== *)

Lemma lookup_value_entries (b : value) (l : list string) :
  forall (o i : nat) (k : string) (tl : props),
    l !! i = Some k ->
    lookup_prop (":v" +:+ index_string (o + i)) (value_entries_from b o l ++ tl) = get b k.
Proof.
  induction l as [|k0 l IH]; intros o i k tl Hi; [done|].
  cbn [value_entries_from app lookup_prop].
  destruct i as [|i].
  - injection Hi as ->. by rewrite Nat.add_0_r, String.eqb_refl.
  - destruct (String.eqb_spec (":v" +:+ index_string o) (":v" +:+ index_string (o + S i)))
      as [Heq|_].
    + apply value_key_inj in Heq. lia.
    + rewrite Nat.add_succ_r. apply (IH (S o) i). exact Hi.
Qed.

Lemma placeholders_from_elem (n : nat) :
  forall o i, i < n ->
    ("#k" +:+ index_string (o + i), ":v" +:+ index_string (o + i)) ∈ placeholders_from o n.
Proof.
  induction n as [|n IH]; intros o i Hi; [lia|].
  cbn [placeholders_from]. destruct i as [|i].
  - rewrite Nat.add_0_r. apply list_elem_of_here.
  - apply list_elem_of_further. rewrite Nat.add_succ_r. apply (IH (S o) i). lia.
Qed.


Lemma allowed_keys_elem (b : value) (k : string) :
  k ∈ allowed_keys b <-> k ∈ Object_keys b /\ k <> "pk" /\ k <> "createdAt".
Proof.
  unfold allowed_keys. rewrite !list_elem_of_In, filter_In, negb_true_iff.
  unfold includes. cbn [existsb]. rewrite orb_false_r, orb_false_iff, !String.eqb_neq.
  tauto.
Qed.

Lemma allowed_keys_NoDup (b : value) : NoDup (Object_keys b) -> NoDup (allowed_keys b).
Proof.
  unfold allowed_keys. generalize (Object_keys b).
  induction 1 as [|k l Hk Hl IH]; cbn [List.filter]; [constructor|].
  destruct (negb _); [|done]. constructor; [|done].
  rewrite list_elem_of_In, filter_In, <- list_elem_of_In. tauto.
Qed.

(** The two outcomes of a conditional update on the table. *)
Lemma mem_update_outcomes (i : update_input) (t : table) :
  upd_ConditionExpression i = "attribute_exists(pk)" ->
  (exists e, mem_update i t = (Rejected e, t)) \/
  (exists pk old new out,
     key_of (upd_Key i) = Some pk /\ tbl_items t !! pk = Some old /\
     mem_update i t = (Fulfilled out, with_items t (<[pk := new]> (tbl_items t)))).
Proof.
  intros Hcond. unfold mem_update.
  destruct (negb (same_table t (upd_TableName i))); [left; by eexists|].
  destruct (key_of (upd_Key i)) as [pk|]; [|left; by eexists].
  destruct (parse_update_expression (upd_UpdateExpression i)) as [pairs|];
    [|left; by eexists].
  destruct (resolve_clauses _ _ pairs) as [asg|]; [|left; by eexists].
  destruct (negb (bool_decide (NoDup asg.*1))); [left; by eexists|].
  destruct (includes asg.*1 "pk"); [left; by eexists|].
  rewrite Hcond. unfold check_condition, present. cbn [String.eqb Ascii.eqb Bool.eqb].
  destruct (tbl_items t !! pk) as [old|] eqn:Hold; [|left; by eexists].
  right. by eexists pk, old, _, _.
Qed.

Section UpdateOnTheTable.

Context `{Runtime}.

(** X13.  [updateItem] never adds an item and never touches another
    one: the table holds the same keys after it as before, and every
    item but the one the path names is as it was. *)
Theorem update_never_adds_an_item (ev : event) (now : string) (t : table) :
  let t' := (run mem_ddb (updateItem ev now) t).2 in
  dom (tbl_items t') = dom (tbl_items t) /\
  tbl_name t' = tbl_name t /\
  (forall pk, path_id ev <> VStr pk -> tbl_items t' !! pk = tbl_items t !! pk).
Proof.
  cbn zeta.
  destruct (updateItem_paths ev now)
    as [?|e ? ?|b ? ? ?|b ? ? ? ?|b k ? Hb Hobj Hall Hok Hko]; try done.
  cbn [run mem_ddb].
  destruct (mem_update_outcomes
              (update_params (path_id ev) (build_update b (allowed_keys b) now)) t
              eq_refl)
    as [[e ->]|(pk & old & new & out & Hkey & Hold & ->)].
  - by rewrite Hko.
  - rewrite Hok. cbn [run snd with_items tbl_items tbl_name].
    split; [|split; [done|]].
    + apply dom_insert_lookup_L. by rewrite Hold.
    + intros pk' Hne. apply lookup_insert_ne. intros <-. apply Hne.
      cbn [update_params upd_Key] in Hkey. rewrite key_of_field in Hkey.
      destruct (path_id ev) as [| | | |s| |]; try discriminate.
      destruct (String.eqb s ""); [discriminate|]. by injection Hkey as ->.
Qed.

(** X14.  In the locals [updateItem] hands to the store, the placeholder
    [#k<i>] names the [i]-th allowed key and [:v<i>] holds the body's
    value for it, whatever the keys are (a key that itself looks like a
    placeholder included); [#updatedAt] names [updatedAt] and
    [:updatedNow] holds the clock reading. *)
Theorem placeholders_name_the_fields
    (b : value) (l : list string) (now : string) (i : nat) (k : string) :
  l !! i = Some k ->
  let u := build_update b l now in
  get (VObj (names u)) ("#k" +:+ index_string i) = VStr k /\
  get (VObj (values u)) (":v" +:+ index_string i) = get b k /\
  get (VObj (names u)) "#updatedAt" = VStr "updatedAt" /\
  get (VObj (values u)) ":updatedNow" = VStr now.
Proof.
  intros Hi u. subst u. rewrite build_update_entries.
  unfold get. cbn [own_props names values].
  split; [exact (lookup_name_entries l 0 i k _ Hi)|].
  split; [exact (lookup_value_entries b l 0 i k _ Hi)|].
  rewrite !lookup_append_prop
    by first [apply name_entries_no_updatedAt | apply value_entries_no_updatedNow].
  by rewrite !String.eqb_refl.
Qed.

(** X16.  [updatedAt] is not a reserved key: when the body has it, the
    update handed to the store assigns the attribute [updatedAt] twice,
    once through the placeholder of the caller's key with the caller's
    value and once through [#updatedAt] with the clock reading. *)
Theorem caller_updatedAt_is_assigned_twice
    (ev : event) (now : string) (b : value) (c : ddb_call)
    (k : promise_result -> prog response) :
  parse_body ev = ret b ->
  updateItem ev now = Await c k ->
  "updatedAt" ∈ Object_keys b ->
  exists i u,
    c = Update (update_params (path_id ev) u) /\
    allowed_keys b !! i = Some "updatedAt" /\
    get (VObj (names u)) ("#k" +:+ index_string i) = VStr "updatedAt" /\
    get (VObj (values u)) (":v" +:+ index_string i) = get b "updatedAt" /\
    get (VObj (names u)) "#updatedAt" = VStr "updatedAt" /\
    get (VObj (values u)) ":updatedNow" = VStr now /\
    parse_update_expression (upd_UpdateExpression (update_params (path_id ev) u)) =
      Some (placeholders (length (allowed_keys b))) /\
    ("#k" +:+ index_string i, ":v" +:+ index_string i)
      ∈ placeholders (length (allowed_keys b)) /\
    ("#updatedAt", ":updatedNow") ∈ placeholders (length (allowed_keys b)).
Proof.
  intros Hb Hupd Hin.
  destruct (updateItem_paths ev now)
    as [?|? ? ?|? ? ? ?|? ? ? ? ?|b' k' Hid Hb' Hobj Hall Hok Hko]; try discriminate.
  rewrite Hb in Hb'. injection Hb' as <-. injection Hupd as <- _.
  assert ("updatedAt" ∈ allowed_keys b) as Hin' by (by rewrite allowed_keys_elem).
  apply list_elem_of_lookup in Hin' as [i Hi].
  exists i, (build_update b (allowed_keys b) now).
  rewrite expression_of_build_update, parse_expression_template.
  rewrite build_update_entries. unfold get. cbn [own_props names values].
  split; [done|]. split; [done|].
  split; [exact (lookup_name_entries _ 0 i _ _ Hi)|].
  split; [exact (lookup_value_entries b _ 0 i _ _ Hi)|].
  split.
  { rewrite lookup_append_prop by apply name_entries_no_updatedAt.
    by rewrite String.eqb_refl. }
  split.
  { rewrite lookup_append_prop by apply value_entries_no_updatedNow.
    by rewrite String.eqb_refl. }
  split; [done|]. split.
  - unfold placeholders. apply elem_of_app. left.
    apply (placeholders_from_elem _ 0 i). by apply lookup_lt_Some in Hi.
  - unfold placeholders. apply elem_of_app. right. apply list_elem_of_here.
Qed.

(** X17.  The table, which like the service refuses an expression
    assigning one attribute twice, rejects such an update before it looks
    for the item: a request whose body has the key [updatedAt] is
    answered 500 and changes nothing, whether the item exists or not. *)
Theorem update_with_updatedAt_is_refused
    (ev : event) (now : string) (t : table) (b : value) :
  to_boolean (path_id ev) = true ->
  parse_body ev = ret b -> not_an_object b = false ->
  "updatedAt" ∈ Object_keys b ->
  statusCode (run mem_ddb (updateItem ev now) t).1 = 500%Z /\
  (run mem_ddb (updateItem ev now) t).2 = t.
Proof.
  intros Hid Hb Hobj Hin.
  assert ("updatedAt" ∈ allowed_keys b) as Hin' by (by rewrite allowed_keys_elem).
  destruct (updateItem_paths ev now)
    as [?|e ? He|b' ? Hb' Hobj'|b' ? Hb' ? Hall'|b' k ? Hb' ? ? Hok Hko];
    try congruence; rewrite Hb in *; try discriminate; injection Hb' as <-;
    try congruence.
  { rewrite Hall' in Hin'. inversion Hin'. }
  cbn [run mem_ddb]. unfold mem_update, no_such_table, invalid, fault.
  destruct (negb _); [rewrite Hko; by split|].
  destruct (key_of _) as [pk|]; [|rewrite Hko; by split].
  rewrite expression_of_build_update, parse_expression_template.
  destruct (resolve_clauses _ _ _) as [asg|] eqn:Hres; [|rewrite Hko; by split].
  cbn [update_params upd_ExpressionAttributeNames upd_ExpressionAttributeValues] in Hres.
  apply assigned_attributes in Hres.
  rewrite bool_decide_eq_false_2; [cbn [negb]; rewrite Hko; by split|].
  rewrite Hres. intros [_ [Hdisj _]]%NoDup_app.
  apply (Hdisj "updatedAt" Hin'). apply list_elem_of_here.
Qed.


End UpdateOnTheTable.

(** X19.  The item built by [createItem] carries the body: every key of
    the body other than the two timestamps has the body's value, [name]
    is the body's [name], and the item has no attribute besides the
    body's keys, [pk], [name] and the two timestamps. *)
Theorem new_item_carries_the_body (b : value) (rid now1 now2 : string) :
  NoDup (Object_keys b) ->
  let item := new_item b rid now1 now2 in
  (forall k, k ∈ Object_keys b -> k <> "createdAt" -> k <> "updatedAt" ->
     get item k = get b k) /\
  get item "name" = get b "name" /\
  (forall k, k ∉ Object_keys b ->
     k ∉ ["pk"; "name"; "createdAt"; "updatedAt"] -> get item k = VUndefined).
Proof.
  intros Hnd item. subst item. rewrite new_item_props.
  unfold get. cbn [own_props].
  set (base := set_prop "name" (lookup_prop "name" (own_props b))
                 (set_prop "pk" (VStr rid) [])).
  assert (forall k, k ∈ Object_keys b -> k <> "createdAt" -> k <> "updatedAt" ->
            lookup_prop k
              (set_prop "updatedAt" (VStr now2)
                 (set_prop "createdAt" (VStr now1)
                    (assign_props base (own_props b)))) =
            lookup_prop k (own_props b)) as Hbody.
  { intros k Hk Hc Hu. rewrite !lookup_set_prop.
    apply String.eqb_neq in Hc, Hu. rewrite String.eqb_sym, Hu, String.eqb_sym, Hc.
    apply lookup_assign_present; [done|]. by apply has_prop_elem. }
  split; [exact Hbody|]. split.
  - destruct (decide ("name" ∈ Object_keys b)) as [Hin|Hout]; [by apply Hbody|].
    rewrite !lookup_set_prop. cbn [String.eqb Ascii.eqb Bool.eqb].
    rewrite lookup_assign_other by done. unfold base. by rewrite !lookup_set_prop.
  - intros k Hk Hnot. rewrite !not_elem_of_cons in Hnot.
    destruct Hnot as (Hpk & Hn & Hc & Hu & _).
    apply String.eqb_neq in Hpk, Hn, Hc, Hu.
    rewrite !lookup_set_prop. rewrite String.eqb_sym, Hu, String.eqb_sym, Hc.
    rewrite lookup_assign_other by done. unfold base. rewrite !lookup_set_prop.
    by rewrite String.eqb_sym, Hn, String.eqb_sym, Hpk.
Qed.

(* ===================================================================== *)
(** ** The store calls of update and delete *)
(* ===================================================================== *)

Lemma lookup_indexed (l : list value) :
  forall (o i : nat) (x : value),
    l !! i = Some x ->
    lookup_prop (index_string (o + i))
      (imap (fun j y => (index_string (o + j), y)) l) = x.
Proof.
  induction l as [|y l IH]; intros o i x Hi; [done|].
  rewrite imap_cons. cbn [lookup_prop]. destruct i as [|i].
  - injection Hi as ->. by rewrite String.eqb_refl.
  - destruct (String.eqb_spec (index_string (o + 0)) (index_string (o + S i)))
      as [Heq|_].
    + apply index_string_inj in Heq. lia.
    + rewrite (imap_ext _ (fun j y => (index_string (S o + j), y))).
      * rewrite Nat.add_succ_r. by apply (IH (S o) i).
      * intros j z _. cbn [compose]. by rewrite Nat.add_succ_r.
Qed.

(** [body[i]] on an array. *)
Lemma array_get (l : list value) (i : nat) (x : value) :
  l !! i = Some x -> get (VArr l) (index_string i) = x.
Proof. intros Hi. exact (lookup_indexed l 0 i x Hi). Qed.

Lemma index_keys_lookup (n i : nat) :
  i < n -> (index_string <$> seq 0 n) !! i = Some (index_string i).
Proof. intros Hi. by rewrite list_lookup_fmap, lookup_seq_lt. Qed.



Section StoreCalls.

Context `{Runtime}.



(** C10.  A body that parses to an array passes the object check of both
    handlers.  [createItem] goes on to the [name] check and fails there,
    an array having no [name].  [updateItem], given a path identifier
    and a non-empty array of [n] elements, takes the indices [0 .. n-1]
    as the allowed keys and calls the store with them as field names:
    the expression for [n] fields, [#k<i>] naming the attribute [i] and
    [:v<i>] holding the [i]-th element. *)
Theorem array_body_passes_object_check
    (ev : event) (rid now1 now2 now s : string) (l : list value) :
  ev_body ev = Some s -> s <> "" -> JSON_parse s = inr (VArr l) ->
  let n := length l in
  let indices := index_string <$> seq 0 n in
  let attr_names := name_entries_from 0 indices ++ [("#updatedAt", VStr "updatedAt")] in
  let attr_values := value_entries_from (VArr l) 0 indices ++ [(":updatedNow", VStr now)] in
  not_an_object (VArr l) = false /\
  createItem ev rid now1 now2 = Ret (res 400 (failure NAME_REQUIRED)) /\
  (to_boolean (path_id ev) = true -> l <> [] ->
   allowed_keys (VArr l) = indices /\
   (exists k,
      updateItem ev now =
        Await (Update {| upd_TableName := TABLE_NAME;
                         upd_Key := VObj [("pk", path_id ev)];
                         upd_UpdateExpression := expression_template n;
                         upd_ExpressionAttributeNames := VObj attr_names;
                         upd_ExpressionAttributeValues := VObj attr_values;
                         upd_ConditionExpression := "attribute_exists(pk)";
                         upd_ReturnValues := "ALL_NEW" |}) k) /\
   (forall i x, l !! i = Some x ->
      get (VObj attr_names) ("#k" +:+ index_string i) = VStr (index_string i) /\
      get (VObj attr_values) (":v" +:+ index_string i) = x /\
      ("#k" +:+ index_string i, ":v" +:+ index_string i) ∈ placeholders n) /\
   parse_update_expression (expression_template n) = Some (placeholders n)).
Proof.
  intros Hbody Hs Hparse n indices attr_names attr_values.
  assert (parse_body ev = ret (VArr l)) as Hb.
  { unfold parse_body. rewrite Hbody.
    apply String.eqb_neq in Hs. by rewrite Hs, Hparse. }
  split; [done|]. split.
  - destruct (createItem_paths ev rid now1 now2)
      as [e He|b Hb' Hobj|b Hb' Hobj Hname|b k Hb' Hobj Hname Hok Hko];
      rewrite Hb in *; try discriminate.
    + injection Hb' as <-. discriminate.
    + done.
    + injection Hb' as <-. by rewrite array_has_no_word in Hname.
  - intros Hid Hl. split; [apply array_allowed_keys|]. split; [|split].
    + destruct (updateItem_paths ev now)
        as [?|e ? He|b ? Hb' Hobj|b ? Hb' Hobj Hall|b k ? Hb' Hobj Hall Hok Hko];
        try rewrite Hb in *; try discriminate; try congruence.
      * injection Hb' as <-. discriminate.
      * injection Hb' as <-. rewrite array_allowed_keys in Hall. by destruct l.
      * injection Hb' as <-. exists k. do 2 f_equal.
        rewrite array_allowed_keys. unfold update_params.
        rewrite build_update_entries. cbn [names values sets].
        unfold expression_template, indices, n.
        by rewrite length_fmap, length_seq.
    + intros i x Hi.
      assert (indices !! i = Some (index_string i)) as Hidx.
      { apply index_keys_lookup. by apply lookup_lt_Some in Hi. }
      unfold get. cbn [own_props]. split; [|split].
      * exact (lookup_name_entries indices 0 i _ _ Hidx).
      * transitivity (get (VArr l) (index_string i));
          [exact (lookup_value_entries (VArr l) indices 0 i _ _ Hidx)
          |by apply array_get].
      * unfold placeholders. apply elem_of_app. left.
        apply (placeholders_from_elem n 0 i). by apply lookup_lt_Some in Hi.
    + apply parse_expression_template.
Qed.

End StoreCalls.

Section Merge.

Context `{Runtime}.


End Merge.

(* ===================================================================== *)
(** ** The further theorems at the example requests *)
(* ===================================================================== *)

Lemma missing_id_is_rejected_witness :
  path_id (Event None None) = VUndefined /\
  @getItem rt0 (Event None None) = Ret (@res rt0 400 (failure "Missing id")).
Proof.
  split; [reflexivity|].
  apply (@missing_id_is_rejected rt0 (Event None None) "T1"). by left.
Defined.

Lemma other_routes_answer_faults_with_500_witness :
  exists c k,
    @listItems rt0 = Await c k /\
    k (Rejected {| err_code := Some "ConditionalCheckFailedException";
                   err_message := "The conditional request failed" |}) =
      Ret (@res rt0 500 (failure "The conditional request failed")).
Proof.
  eexists _, _. split; [reflexivity|].
  apply (@other_routes_answer_faults_with_500 rt0 (Event None None) "g" "T1" "T2" _ _
           {| err_code := Some "ConditionalCheckFailedException";
              err_message := "The conditional request failed" |}
           (or_intror (or_intror eq_refl))).
Defined.

Lemma create_requires_truthy_name_witness :
  @parse_body rt0 (request "FULL") =
    ret (VObj [("pk", VStr "x"); ("createdAt", VStr "y"); ("foo", VStr "bar")]) /\
  @createItem rt0 (request "FULL") "generated" "T1" "T2" =
    Ret (@res rt0 400 (failure NAME_REQUIRED)).
Proof.
  split; [reflexivity|].
  apply (@create_requires_truthy_name rt0 (request "FULL") "generated" "T1" "T2"
           (VObj [("pk", VStr "x"); ("createdAt", VStr "y"); ("foo", VStr "bar")]));
    reflexivity.
Defined.

Lemma unusable_bodies_witness :
  ev_body (request "NOT JSON") = Some "NOT JSON" /\ "NOT JSON" <> "" /\
  @createItem rt0 (request "NOT JSON") "generated" "T1" "T2" =
    Ret (@res rt0 500 (failure "Unexpected token in JSON")).
Proof.
  split; [reflexivity|]. split; [discriminate|].
  assert ("NOT JSON" <> "") as Hne by discriminate.
  exact (proj1 (proj1 (@unusable_bodies rt0 (request "NOT JSON") "generated" "T1" "T2"
                         "T3" "NOT JSON" eq_refl Hne) syntax_error eq_refl)).
Defined.

Lemma create_then_get_witness :
  statusCode (run mem_ddb (@createItem rt0 (request "WIDGET") "generated" "T1" "T2")
                (Table "items" ∅)).1 = 201%Z /\
  (run mem_ddb
     (@getItem rt0 (Event None (Some [("id", "generated")])))
     (run mem_ddb (@createItem rt0 (request "WIDGET") "generated" "T1" "T2")
        (Table "items" ∅)).2).1 =
    @res rt0 200
      (object_literal
         [Field "ok" (VBool true);
          Field "item"
            (new_item (VObj [("name", VStr "widget"); ("createdAt", VStr "1999")])
               "generated" "T1" "T2")]).
Proof.
  split; [vm_compute; reflexivity|].
  rewrite (@create_then_get rt0 (request "WIDGET")
             (Event None (Some [("id", "generated")])) "generated" "T1" "T2"
             (Table "items" ∅)
             (VObj [("name", VStr "widget"); ("createdAt", VStr "1999")]) "generated");
    [reflexivity|reflexivity|vm_compute; reflexivity|reflexivity|reflexivity].
Defined.

Lemma get_reads_the_table_witness :
  path_id (request "FULL") = VStr "a1" /\
  run mem_ddb (@getItem rt0 (request "FULL")) table0 =
    (@res rt0 200 (object_literal [Field "ok" (VBool true); Field "item" stored_a1]),
     table0).
Proof.
  split; [reflexivity|].
  apply (proj2 (@get_reads_the_table rt0 (request "FULL") "a1" table0
                  eq_refl ltac:(discriminate) eq_refl)).
  vm_compute; reflexivity.
Defined.

Lemma delete_removes_the_item_witness :
  tbl_items table0 !! "a1" = Some stored_a1 /\
  run mem_ddb (@deleteItem rt0 (request "FULL")) table0 =
    (@res rt0 204 (object_literal [Field "ok" (VBool true)]),
     with_items table0 (delete "a1" (tbl_items table0))).
Proof.
  split; [vm_compute; reflexivity|].
  apply (@delete_removes_the_item rt0 (request "FULL") "a1" table0 stored_a1);
    [reflexivity|discriminate|reflexivity|vm_compute; reflexivity].
Defined.

Lemma hello_overwrites_witness :
  @TABLE_NAME rt0 = VStr (tbl_name table0) /\
  (run mem_ddb (@hello rt0 0%float) table0).2 =
    with_items table0
      (<["hello" := VObj [("pk", VStr "hello"); ("ts", VNum 0)]]> (tbl_items table0)).
Proof.
  split; [reflexivity|].
  by rewrite (@hello_overwrites rt0 0%float table0 eq_refl).
Defined.

Lemma hello_logs_the_fault_witness :
  exists c k,
    @hello rt0 0%float = Await c k /\
    k (Rejected syntax_error) =
      Ret ([syntax_error],
           {| statusCode := 500; headers := None;
              body := @JSON_stringify rt0 (failure (err_message syntax_error)) |}).
Proof.
  eexists _, _. split; [reflexivity|].
  apply (@hello_logs_the_fault rt0 0%float _ _ eq_refl).
Defined.

Lemma placeholders_name_the_fields_witness :
  ["#k0"; "b"] !! 1 = Some "b" /\
  get (VObj (names (build_update (VObj [("#k0", VStr "x"); ("b", VStr "y")])
                      ["#k0"; "b"] "T1")))
      ("#k" +:+ index_string 1) = VStr "b".
Proof.
  split; [reflexivity|].
  apply (placeholders_name_the_fields
           (VObj [("#k0", VStr "x"); ("b", VStr "y")]) ["#k0"; "b"] "T1" 1 "b" eq_refl).
Defined.

Lemma caller_updatedAt_is_assigned_twice_witness :
  exists c k,
    @updateItem rt1 (request "STAMPED") "T1" = Await c k /\
    exists i u,
      c = Update (@update_params rt1 (path_id (request "STAMPED")) u) /\
      get (VObj (names u)) ("#k" +:+ index_string i) = VStr "updatedAt" /\
      get (VObj (names u)) "#updatedAt" = VStr "updatedAt".
Proof.
  eexists _, _. split; [reflexivity|].
  destruct (@caller_updatedAt_is_assigned_twice rt1 (request "STAMPED") "T1"
              (VObj [("foo", VStr "bar"); ("updatedAt", VStr "1999")]) _ _
              eq_refl eq_refl)
    as (i & u & Hc & _ & Hn & _ & Hu & _).
  - compute_done.
  - exists i, u. by repeat split.
Defined.

Lemma update_with_updatedAt_is_refused_witness :
  @parse_body rt1 (request "STAMPED") =
    ret (VObj [("foo", VStr "bar"); ("updatedAt", VStr "1999")]) /\
  statusCode (run mem_ddb (@updateItem rt1 (request "STAMPED") "T1") table0).1 = 500%Z.
Proof.
  split; [reflexivity|].
  apply (@update_with_updatedAt_is_refused rt1 (request "STAMPED") "T1" table0
           (VObj [("foo", VStr "bar"); ("updatedAt", VStr "1999")]));
    [reflexivity|reflexivity|reflexivity|].
  compute_done.
Defined.


Lemma new_item_carries_the_body_witness :
  NoDup (Object_keys (VObj [("name", VStr "widget"); ("color", VStr "red")])) /\
  get (new_item (VObj [("name", VStr "widget"); ("color", VStr "red")])
         "generated" "T1" "T2") "color" = VStr "red".
Proof.
  assert (NoDup (Object_keys (VObj [("name", VStr "widget"); ("color", VStr "red")])))
    as Hnd by (compute_done).
  split; [exact Hnd|].
  apply (proj1 (new_item_carries_the_body
                  (VObj [("name", VStr "widget"); ("color", VStr "red")])
                  "generated" "T1" "T2" Hnd) "color").
  - compute_done.
  - discriminate.
  - discriminate.
Defined.



Lemma array_body_passes_object_check_witness :
  ev_body (request "ARRAY") = Some "ARRAY" /\
  "ARRAY" <> "" /\
  @JSON_parse rt0 "ARRAY" = inr (VArr [VStr "a"; VStr "b"]) /\
  @createItem rt0 (request "ARRAY") "generated" "T1" "T2" =
    Ret (@res rt0 400 (failure NAME_REQUIRED)) /\
  exists k,
    @updateItem rt0 (request "ARRAY") "T3" =
      Await (Update {| upd_TableName := VStr "items";
                       upd_Key := VObj [("pk", VStr "a1")];
                       upd_UpdateExpression :=
                         "SET #k0 = :v0, #k1 = :v1, #updatedAt = :updatedNow";
                       upd_ExpressionAttributeNames :=
                         VObj [("#k0", VStr "0"); ("#k1", VStr "1");
                               ("#updatedAt", VStr "updatedAt")];
                       upd_ExpressionAttributeValues :=
                         VObj [(":v0", VStr "a"); (":v1", VStr "b");
                               (":updatedNow", VStr "T3")];
                       upd_ConditionExpression := "attribute_exists(pk)";
                       upd_ReturnValues := "ALL_NEW" |}) k.
Proof.
  assert ("ARRAY" <> "") as Hne by discriminate.
  split; [reflexivity|]. split; [exact Hne|]. split; [reflexivity|].
  destruct (@array_body_passes_object_check rt0 (request "ARRAY")
              "generated" "T1" "T2" "T3" "ARRAY" [VStr "a"; VStr "b"]
              eq_refl Hne eq_refl)
    as (_ & Hcreate & Hupdate).
  split; [exact Hcreate|].
  destruct (Hupdate eq_refl ltac:(discriminate)) as (_ & (k & Hk) & _).
  exists k. exact Hk.
Defined.

